(** * Defect lifecycle and bulk status update: a shallow embedding

    The development follows the defects provider (the React context that
    owns [closeDefect], [reopenDefect], [loadDefect] and friends) and the
    bulk-update handler of the assets page.

    Every asynchronous function of the provider is a sequence of awaited
    calls that runs to completion, so it is embedded as a computation in a
    state-and-exception monad over a [World]: the repository table, the
    sync queue and the reducer state.  A thrown error keeps the effects
    performed before the throw, exactly as the [try]/[catch] blocks of the
    provider do. *)

From stdpp Require Import base option list strings gmap fin_maps pretty.

Local Open Scope string_scope.
Local Open Scope list_scope.

(** ** Data model of the defects feature *)

(** The seven values of [DefectStatus] (the status options of the detail
    page list them). *)
Inductive DefectStatus :=
  | Draft | Open | Acknowledged | InProgress | Deferred | Closed | Overdue.

#[global] Instance DefectStatus_eq_dec : EqDecision DefectStatus.
Proof. solve_decision. Defined.

(** Attachments are [any[]] in the provider; they are only concatenated. *)
Definition Attachment := string.

(** [DefectComment]: [{ id, at, by, byName, text }]. *)
Record DefectComment := mkComment {
  c_id : string;
  c_at : string;
  c_by : string;
  c_byName : string;
  c_text : string;
}.

(** [Omit<DefectComment, 'id'>], the argument of [addDefectComment]. *)
Record NewComment := mkNewComment {
  nc_at : string;
  nc_by : string;
  nc_byName : string;
  nc_text : string;
}.

(** The optional [data] object of a history entry. *)
Record HistoryData := mkHistoryData {
  hd_actionTaken : string;
  hd_returnToService : option bool;
}.

(** A history entry: [{ at, by, byName, type, summary, data? }]. *)
Record HistoryEntry := mkHistory {
  h_at : string;
  h_by : string;
  h_byName : string;
  h_type : string;
  h_summary : string;
  h_data : option HistoryData;
}.

(** The [Defect] record.  Optional properties are [option]s; [None] is
    JavaScript's [undefined]. *)
Record Defect := mkDefect {
  d_id : string;
  d_defectCode : string;
  d_title : string;
  d_description : string;
  d_severity : string;
  d_severityModel : string;
  d_status : DefectStatus;
  d_assetId : string;
  d_siteId : string;
  d_locationId : option string;
  d_assignedToId : option string;
  d_assignedToName : option string;
  d_targetRectificationDate : option string;
  d_complianceTags : list string;
  d_actions : list string;
  d_attachments : list Attachment;
  d_beforeAfterRequired : bool;
  d_history : list HistoryEntry;
  d_comments : list DefectComment;
  d_createdAt : string;
  d_createdBy : string;
  d_createdByName : string;
  d_updatedAt : string;
  d_updatedBy : string;
  d_updatedByName : string;
  d_unsafeDoNotUse : bool;
  d_parentDefectId : option string;
  d_recurrenceCount : option nat;
  d_reopenedCount : nat;
  d_closedAt : option string;
  d_closedBy : option string;
  d_closedByName : option string;
  d_actionTaken : option string;
}.

(** The argument of [createDefect]:
    [Omit<Defect, 'id' | 'defectCode' | 'unsafeDoNotUse' | 'history'>].
    [reopenedCount] is optional here because [reopenDefect] leaves it out. *)
Record NewDefect := mkNewDefect {
  n_title : string;
  n_description : string;
  n_severity : string;
  n_severityModel : string;
  n_status : DefectStatus;
  n_assetId : string;
  n_siteId : string;
  n_locationId : option string;
  n_assignedToId : option string;
  n_assignedToName : option string;
  n_targetRectificationDate : option string;
  n_complianceTags : list string;
  n_actions : list string;
  n_attachments : list Attachment;
  n_beforeAfterRequired : bool;
  n_comments : list DefectComment;
  n_createdAt : string;
  n_createdBy : string;
  n_createdByName : string;
  n_updatedAt : string;
  n_updatedBy : string;
  n_updatedByName : string;
  n_reopenedCount : option nat;
}.

(** [Partial<Defect>] restricted to the properties that the provider and
    the detail page ever put in an update.  An outer [None] is an absent
    key; for an optional property [Some None] is a key that is present
    with the value [undefined] (as in [closedAt: undefined]). *)
Record DefectPatch := mkPatch {
  p_status : option DefectStatus;
  p_closedAt : option (option string);
  p_closedBy : option (option string);
  p_closedByName : option (option string);
  p_actionTaken : option (option string);
  p_comments : option (list DefectComment);
  p_attachments : option (list Attachment);
  p_unsafeDoNotUse : option bool;
  p_updatedBy : option string;
  p_updatedByName : option string;
  p_parentDefectId : option (option string);
  p_recurrenceCount : option (option nat);
  p_reopenedCount : option nat;
}.

Definition emptyPatch : DefectPatch :=
  {| p_status := None; p_closedAt := None; p_closedBy := None;
     p_closedByName := None; p_actionTaken := None; p_comments := None;
     p_attachments := None; p_unsafeDoNotUse := None; p_updatedBy := None;
     p_updatedByName := None; p_parentDefectId := None;
     p_recurrenceCount := None; p_reopenedCount := None |}.

(** The [data] arguments of [closeDefect] and [reopenDefect]. *)
Record CloseData := mkCloseData {
  actionTaken : string;
  notes : string;
  attachments : list Attachment;
  returnToService : option bool;
}.

Record ReopenData := mkReopenData {
  isNewOccurrence : bool;
  reason : string;
  reopenAttachments : option (list Attachment);
}.

(** One item of the sync queue: [addToSyncQueue(operationName, id, payload)]. *)
Inductive SyncPayload :=
  | PayloadDefect (d : Defect)
  | PayloadPatch (p : DefectPatch)
  | PayloadId (id : string)
  | PayloadClose (data : CloseData)
  | PayloadReopen (data : ReopenData).

Record SyncItem := mkSyncItem {
  operationName : string;
  itemId : string;
  payload : SyncPayload;
}.

(** ** The reducer state *)

Record Summary := mkSummary {
  total : nat;
  open : nat;
  overdue : nat;
  unsafe : nat;
}.

(** [DefectsState]; the [settings] slot is left out, no lifecycle operation
    reads or writes it. *)
Record DefectsState := mkState {
  defects : list Defect;
  currentDefect : option Defect;
  summary : Summary;
  syncQueueCount : nat;
  loading : bool;
  error : option string;
}.

Inductive DefectsAction :=
  | SET_LOADING (b : bool)
  | SET_ERROR (e : option string)
  | SET_DEFECTS (ds : list Defect)
  | SET_CURRENT_DEFECT (d : option Defect)
  | SET_SUMMARY (s : Summary)
  | SET_SYNC_QUEUE_COUNT (n : nat)
  | ADD_DEFECT (d : Defect)
  | UPDATE_DEFECT (d : Defect)
  | REMOVE_DEFECT (id : string).

(** [state.currentDefect?.id === id] *)
Definition currentHasId (c : option Defect) (id : string) : bool :=
  match c with
  | Some d => bool_decide (d_id d = id)
  | None => false
  end.

Definition defectsReducer (state : DefectsState) (action : DefectsAction)
  : DefectsState :=
  match action with
  | SET_LOADING b =>
      mkState (defects state) (currentDefect state) (summary state)
              (syncQueueCount state) b (error state)
  | SET_ERROR e =>
      mkState (defects state) (currentDefect state) (summary state)
              (syncQueueCount state) (loading state) e
  | SET_DEFECTS ds =>
      mkState ds (currentDefect state) (summary state)
              (syncQueueCount state) (loading state) (error state)
  | SET_CURRENT_DEFECT d =>
      mkState (defects state) d (summary state)
              (syncQueueCount state) (loading state) (error state)
  | SET_SUMMARY s =>
      mkState (defects state) (currentDefect state) s
              (syncQueueCount state) (loading state) (error state)
  | SET_SYNC_QUEUE_COUNT n =>
      mkState (defects state) (currentDefect state) (summary state)
              n (loading state) (error state)
  | ADD_DEFECT d =>
      mkState (defects state ++ [d]) (currentDefect state) (summary state)
              (syncQueueCount state) (loading state) (error state)
  | UPDATE_DEFECT p =>
      mkState
        (map (fun d => if bool_decide (d_id d = d_id p) then p else d)
             (defects state))
        (if currentHasId (currentDefect state) (d_id p)
         then Some p else currentDefect state)
        (summary state) (syncQueueCount state) (loading state) (error state)
  | REMOVE_DEFECT id =>
      mkState
        (filter (fun d => d_id d ≠ id) (defects state))
        (if currentHasId (currentDefect state) id
         then None else currentDefect state)
        (summary state) (syncQueueCount state) (loading state) (error state)
  end.

(** ** The world the provider runs in *)

(** What [createDefect] adds to its argument (see [createDefect] below). *)
Record Assigned := mkAssigned {
  a_id : string;
  a_defectCode : string;
  a_unsafeDoNotUse : bool;
}.

(** The sources of values that the code obtains from its environment: the
    successive readings of [new Date().toISOString()], the successive
    results of [crypto.randomUUID()], the values the repository assigns to
    the n-th record it creates, and the summary that the repository derives
    from its table ([getDefectSummary] is not part of the provider). *)
Record Env := mkEnv {
  env_clock : nat -> string;
  env_uuid : nat -> string;
  env_assign : nat -> NewDefect -> Assigned;
  env_summary : gmap string Defect -> Summary;
}.

Record World := mkWorld {
  w_db : gmap string Defect;      (* the repository's table, keyed by id *)
  w_queue : list SyncItem;        (* the sync queue, oldest first *)
  w_state : DefectsState;         (* the reducer state *)
  w_time : nat;                   (* clock readings taken so far *)
  w_uuids : nat;                  (* UUIDs drawn so far *)
  w_created : nat;                (* records created so far *)
}.

Definition set_db (f : gmap string Defect -> gmap string Defect) (w : World) :=
  mkWorld (f (w_db w)) (w_queue w) (w_state w) (w_time w) (w_uuids w)
          (w_created w).
Definition set_queue (f : list SyncItem -> list SyncItem) (w : World) :=
  mkWorld (w_db w) (f (w_queue w)) (w_state w) (w_time w) (w_uuids w)
          (w_created w).
Definition set_state (f : DefectsState -> DefectsState) (w : World) :=
  mkWorld (w_db w) (w_queue w) (f (w_state w)) (w_time w) (w_uuids w)
          (w_created w).

(** ** State and exceptions *)

Inductive Res (A : Type) :=
  | Ok (a : A)
  | Throw (msg : string).
Arguments Ok {A} a.
Arguments Throw {A} msg.

Definition M (A : Type) : Type := World -> Res A * World.

Definition ret {A} (a : A) : M A := fun w => (Ok a, w).
Definition throw {A} (msg : string) : M A := fun w => (Throw msg, w).
Definition bind {A B} (m : M A) (k : A -> M B) : M B :=
  fun w => match m w with
           | (Ok a, w') => k a w'
           | (Throw e, w') => (Throw e, w')
           end.
(** [try { m } catch (error) { h error.message }] *)
Definition tryCatch {A} (m : M A) (h : string -> M A) : M A :=
  fun w => match m w with
           | (Ok a, w') => (Ok a, w')
           | (Throw e, w') => h e w'
           end.

Notation "x <- c1 ;; c2" := (bind c1 (fun x => c2))
  (at level 100, c1 at next level, right associativity).
Notation "c1 ;; c2" := (bind c1 (fun _ => c2))
  (at level 100, right associativity).

Definition dispatch (action : DefectsAction) : M unit :=
  fun w => (Ok tt, set_state (fun s => defectsReducer s action) w).

(** The record of a table that carries a given code, if any. *)
Definition findByCode (code : string) (db : gmap string Defect)
  : option Defect :=
  snd <$> find (fun kv => bool_decide (d_defectCode (snd kv) = code))
               (map_to_list db).

Section Provider.
Context (env : Env).

(** [new Date().toISOString()] *)
Definition nowISO : M string :=
  fun w => (Ok (env_clock env (w_time w)),
            mkWorld (w_db w) (w_queue w) (w_state w) (S (w_time w))
                    (w_uuids w) (w_created w)).

(** [crypto.randomUUID()] *)
Definition randomUUID : M string :=
  fun w => (Ok (env_uuid env (w_uuids w)),
            mkWorld (w_db w) (w_queue w) (w_state w) (w_time w)
                    (S (w_uuids w)) (w_created w)).

(** *** The repository and the sync queue *)

(** Modelled from the spec: [getDefectById] of [db/repository] is not
    among the sources.  The data-access collaborator is "CRUD over
    Defect records, keyed by id"; a lookup that finds nothing yields
    [undefined]. *)
Definition getDefectById (id : string) : M (option Defect) :=
  fun w => (Ok (w_db w !! id), w).

(** Modelled from the spec: [getDefectByCode] of [db/repository] is not
    among the sources; it resolves a human-readable code to the record
    that carries it. *)
Definition getDefectByCode (code : string) : M (option Defect) :=
  fun w => (Ok (findByCode code (w_db w)), w).

(** Modelled from the spec: [queryDefects] of [db/repository] is not
    among the sources; only the call without a filter is used here, which
    yields the whole table. *)
Definition queryDefects : M (list Defect) :=
  fun w => (Ok (snd <$> map_to_list (w_db w)), w).

(** Modelled from the spec: the record that [createDefect] stores for an
    argument and the values assigned to it.  Properties that the argument
    does not carry start absent, a missing [reopenedCount] starts at 0. *)
Definition completeDefect (n : NewDefect) (a : Assigned) : Defect :=
  {| d_id := a_id a;
     d_defectCode := a_defectCode a;
     d_title := n_title n;
     d_description := n_description n;
     d_severity := n_severity n;
     d_severityModel := n_severityModel n;
     d_status := n_status n;
     d_assetId := n_assetId n;
     d_siteId := n_siteId n;
     d_locationId := n_locationId n;
     d_assignedToId := n_assignedToId n;
     d_assignedToName := n_assignedToName n;
     d_targetRectificationDate := n_targetRectificationDate n;
     d_complianceTags := n_complianceTags n;
     d_actions := n_actions n;
     d_attachments := n_attachments n;
     d_beforeAfterRequired := n_beforeAfterRequired n;
     d_history := [];
     d_comments := n_comments n;
     d_createdAt := n_createdAt n;
     d_createdBy := n_createdBy n;
     d_createdByName := n_createdByName n;
     d_updatedAt := n_updatedAt n;
     d_updatedBy := n_updatedBy n;
     d_updatedByName := n_updatedByName n;
     d_unsafeDoNotUse := a_unsafeDoNotUse a;
     d_parentDefectId := None;
     d_recurrenceCount := None;
     d_reopenedCount := default 0 (n_reopenedCount n);
     d_closedAt := None;
     d_closedBy := None;
     d_closedByName := None;
     d_actionTaken := None |}.

(** Modelled from the spec: [createDefect] of [db/repository] is not
    among the sources.  A created record equals its argument in all
    fields except the id, the code and the history, which the store
    assigns (so is [unsafeDoNotUse], which the argument type omits); a
    record that has just been created has an initialised, empty history.
    The assigned values come from the environment. *)
Definition createDefect (n : NewDefect) : M Defect :=
  fun w =>
    let d := completeDefect n (env_assign env (w_created w) n) in
    (Ok d,
     mkWorld (<[d_id d := d]> (w_db w)) (w_queue w) (w_state w) (w_time w)
             (w_uuids w) (S (w_created w))).

(** The field merge [{ ...existing, ...updates }]. *)
Definition applyPatch (d : Defect) (p : DefectPatch) : Defect :=
  {| d_id := d_id d;
     d_defectCode := d_defectCode d;
     d_title := d_title d;
     d_description := d_description d;
     d_severity := d_severity d;
     d_severityModel := d_severityModel d;
     d_status := default (d_status d) (p_status p);
     d_assetId := d_assetId d;
     d_siteId := d_siteId d;
     d_locationId := d_locationId d;
     d_assignedToId := d_assignedToId d;
     d_assignedToName := d_assignedToName d;
     d_targetRectificationDate := d_targetRectificationDate d;
     d_complianceTags := d_complianceTags d;
     d_actions := d_actions d;
     d_attachments := default (d_attachments d) (p_attachments p);
     d_beforeAfterRequired := d_beforeAfterRequired d;
     d_history := d_history d;
     d_comments := default (d_comments d) (p_comments p);
     d_createdAt := d_createdAt d;
     d_createdBy := d_createdBy d;
     d_createdByName := d_createdByName d;
     d_updatedAt := d_updatedAt d;
     d_updatedBy := default (d_updatedBy d) (p_updatedBy p);
     d_updatedByName := default (d_updatedByName d) (p_updatedByName p);
     d_unsafeDoNotUse := default (d_unsafeDoNotUse d) (p_unsafeDoNotUse p);
     d_parentDefectId := default (d_parentDefectId d) (p_parentDefectId p);
     d_recurrenceCount :=
       default (d_recurrenceCount d) (p_recurrenceCount p);
     d_reopenedCount := default (d_reopenedCount d) (p_reopenedCount p);
     d_closedAt := default (d_closedAt d) (p_closedAt p);
     d_closedBy := default (d_closedBy d) (p_closedBy p);
     d_closedByName := default (d_closedByName d) (p_closedByName p);
     d_actionTaken := default (d_actionTaken d) (p_actionTaken p) |}.

(** Modelled from the spec: [updateDefect] of [db/repository] is not
    among the sources.  Editing is "a direct field merge with no extra
    validation"; it appends no history; an id that is not in the store is
    a not-found error. *)
Definition updateDefect (id : string) (updates : DefectPatch) : M Defect :=
  fun w =>
    match w_db w !! id with
    | None => (Throw "Defect not found", w)
    | Some d =>
        let d' := applyPatch d updates in
        (Ok d', set_db (insert id d') w)
    end.

(** Modelled from the spec: [deleteDefect] of [db/repository] is not
    among the sources; deletion is unconditional removal. *)
Definition deleteDefect (id : string) : M unit :=
  fun w => (Ok tt, set_db (delete id) w).

Definition withHistory (d : Defect) (h : list HistoryEntry) : Defect :=
  mkDefect (d_id d) (d_defectCode d) (d_title d) (d_description d)
    (d_severity d) (d_severityModel d) (d_status d) (d_assetId d)
    (d_siteId d) (d_locationId d) (d_assignedToId d) (d_assignedToName d)
    (d_targetRectificationDate d) (d_complianceTags d) (d_actions d)
    (d_attachments d) (d_beforeAfterRequired d) h (d_comments d)
    (d_createdAt d) (d_createdBy d) (d_createdByName d) (d_updatedAt d)
    (d_updatedBy d) (d_updatedByName d) (d_unsafeDoNotUse d)
    (d_parentDefectId d) (d_recurrenceCount d) (d_reopenedCount d)
    (d_closedAt d) (d_closedBy d) (d_closedByName d) (d_actionTaken d).

Definition withComments (d : Defect) (c : list DefectComment) : Defect :=
  mkDefect (d_id d) (d_defectCode d) (d_title d) (d_description d)
    (d_severity d) (d_severityModel d) (d_status d) (d_assetId d)
    (d_siteId d) (d_locationId d) (d_assignedToId d) (d_assignedToName d)
    (d_targetRectificationDate d) (d_complianceTags d) (d_actions d)
    (d_attachments d) (d_beforeAfterRequired d) (d_history d) c
    (d_createdAt d) (d_createdBy d) (d_createdByName d) (d_updatedAt d)
    (d_updatedBy d) (d_updatedByName d) (d_unsafeDoNotUse d)
    (d_parentDefectId d) (d_recurrenceCount d) (d_reopenedCount d)
    (d_closedAt d) (d_closedBy d) (d_closedByName d) (d_actionTaken d).

(** Modelled from the spec: [addHistoryEntry] of [db/repository] is not
    among the sources.  History entries are ordered and append-only: the
    entry goes to the end of the record's history. *)
Definition addHistoryEntry (id : string) (entry : HistoryEntry) : M unit :=
  fun w =>
    match w_db w !! id with
    | None => (Throw "Defect not found", w)
    | Some d =>
        (Ok tt, set_db (insert id (withHistory d (d_history d ++ [entry]))) w)
    end.

(** Modelled from the spec: [addComment] of [db/repository] is not among
    the sources.  It "appends to comments (ordered, append-only); does
    not itself append a history entry"; the comment's id is new. *)
Definition addComment (id : string) (comment : NewComment) : M unit :=
  fun w =>
    match w_db w !! id with
    | None => (Throw "Defect not found", w)
    | Some d =>
        (cid <- randomUUID ;;
         fun w' =>
           (Ok tt,
            set_db (insert id
              (withComments d
                 (d_comments d ++
                  [mkComment cid (nc_at comment) (nc_by comment)
                             (nc_byName comment) (nc_text comment)]))) w'))
          w
    end.

(** Modelled from the spec: [getDefectSummary] of [db/repository] is not
    among the sources; the summary is recomputed from a full scan of the
    table. *)
Definition getDefectSummary : M Summary :=
  fun w => (Ok (env_summary env (w_db w)), w).

(** Modelled from the spec: [addToSyncQueue] of [db/syncQueue] is not
    among the sources; the queue is append-only. *)
Definition addToSyncQueue (name id : string) (p : SyncPayload) : M unit :=
  fun w => (Ok tt, set_queue (fun q => q ++ [mkSyncItem name id p]) w).

(** Modelled from the spec: [getSyncQueueItems] of [db/syncQueue] is not
    among the sources; it returns the items waiting in the queue. *)
Definition getSyncQueueItems : M (list SyncItem) :=
  fun w => (Ok (w_queue w), w).

(** *** The provider's operations *)

(** [catch (error) { dispatch SET_ERROR; throw error }] *)
Definition reportAndRethrow {A} (msg : string) : M A :=
  dispatch (SET_ERROR (Some msg)) ;; throw msg.

Definition loadDefects : M unit :=
  tryCatch
    (ds <- queryDefects ;;
     dispatch (SET_DEFECTS ds))
    (fun msg => dispatch (SET_ERROR (Some msg))).

Definition loadDefect (id : string) : M unit :=
  tryCatch
    ((* Try to load by ID first *)
     defect <- getDefectById id ;;
     (* If not found and it looks like a defect code, try by code *)
     defect <- match defect with
               | None =>
                   if String.prefix "DEF-" id
                   then getDefectByCode id
                   else ret defect
               | Some _ => ret defect
               end ;;
     match defect with
     | Some d => dispatch (SET_CURRENT_DEFECT (Some d))
     | None => dispatch (SET_CURRENT_DEFECT None)
     end)
    (fun msg =>
       dispatch (SET_ERROR (Some msg)) ;;
       dispatch (SET_CURRENT_DEFECT None)).

Definition loadSummary : M unit :=
  tryCatch
    (s <- getDefectSummary ;;
     dispatch (SET_SUMMARY s))
    (fun msg => dispatch (SET_ERROR (Some msg))).

Definition refreshSyncQueue : M unit :=
  tryCatch
    (items <- getSyncQueueItems ;;
     dispatch (SET_SYNC_QUEUE_COUNT (length items)))
    (fun msg => dispatch (SET_ERROR (Some msg))).

Definition createNewDefect (defect : NewDefect) : M Defect :=
  tryCatch
    (newDefect <- createDefect defect ;;
     dispatch (ADD_DEFECT newDefect) ;;
     addToSyncQueue "createDefect" (d_id newDefect)
                    (PayloadDefect newDefect) ;;
     refreshSyncQueue ;;
     loadSummary ;;
     ret newDefect)
    reportAndRethrow.

Definition updateDefectData (id : string) (updates : DefectPatch)
  : M Defect :=
  tryCatch
    (updated <- updateDefect id updates ;;
     dispatch (UPDATE_DEFECT updated) ;;
     addToSyncQueue "updateDefect" id (PayloadPatch updates) ;;
     refreshSyncQueue ;;
     loadSummary ;;
     ret updated)
    reportAndRethrow.

Definition deleteDefectData (id : string) : M unit :=
  tryCatch
    (deleteDefect id ;;
     dispatch (REMOVE_DEFECT id) ;;
     addToSyncQueue "deleteDefect" id (PayloadId id) ;;
     refreshSyncQueue ;;
     loadSummary)
    reportAndRethrow.

Definition addDefectComment (defectId : string) (comment : NewComment)
  : M unit :=
  tryCatch
    (addComment defectId comment ;;
     loadDefect defectId ;;
     loadDefects)
    reportAndRethrow.

(** [`Action: ${data.actionTaken}. ${data.notes}`] *)
Definition closeSummary (data : CloseData) : string :=
  "Action: " +:+ actionTaken data +:+ ". " +:+ notes data.

Definition closeDefect (defectId : string) (data : CloseData)
    (userId userName : string) : M unit :=
  tryCatch
    (defect <- getDefectById defectId ;;
     match defect with
     | None => throw "Defect not found"
     | Some defect =>
         now <- nowISO ;;
         commentId <- randomUUID ;;
         updateDefectData defectId
           {| p_status := Some Closed;
              p_closedAt := Some (Some now);
              p_closedBy := Some (Some userId);
              p_closedByName := Some (Some userName);
              p_actionTaken := Some (Some (actionTaken data));
              p_comments :=
                Some (d_comments defect ++
                      [mkComment commentId now userId userName
                                 (closeSummary data)]);
              p_attachments :=
                Some (d_attachments defect ++ attachments data);
              p_unsafeDoNotUse :=
                Some (if bool_decide (returnToService data = Some true)
                      then false else d_unsafeDoNotUse defect);
              p_updatedBy := Some userId;
              p_updatedByName := Some userName;
              p_parentDefectId := None;
              p_recurrenceCount := None;
              p_reopenedCount := None |} ;;
         addHistoryEntry defectId
           {| h_at := now; h_by := userId; h_byName := userName;
              h_type := "close";
              h_summary := closeSummary data;
              h_data := Some (mkHistoryData (actionTaken data)
                                            (returnToService data)) |} ;;
         (if default false (returnToService data) && d_unsafeDoNotUse defect
          then addHistoryEntry defectId
                 {| h_at := now; h_by := userId; h_byName := userName;
                    h_type := "status_change";
                    h_summary :=
                      "Asset returned to service - Unsafe flag cleared";
                    h_data := None |}
          else ret tt) ;;
         addToSyncQueue "closeDefect" defectId (PayloadClose data) ;;
         refreshSyncQueue
     end)
    reportAndRethrow.

Definition reopenDefect (defectId : string) (data : ReopenData)
    (userId userName : string) : M string :=
  tryCatch
    (defect <- getDefectById defectId ;;
     match defect with
     | None => throw "Defect not found"
     | Some defect =>
         if isNewOccurrence data then
           (* Create new defect linked to this one.  The [history: []]
              that the call also passes is not a property of the argument
              type: the history is the one [createDefect] assigns. *)
           createdAt <- nowISO ;;
           updatedAt <- nowISO ;;
           newDefect <- createDefect
             {| n_title := d_title defect;
                n_description :=
                  "Recurrence of " +:+ d_defectCode defect +:+ ": "
                    +:+ reason data;
                n_severity := d_severity defect;
                n_severityModel := d_severityModel defect;
                n_status := Open;
                n_assetId := d_assetId defect;
                n_siteId := d_siteId defect;
                n_locationId := d_locationId defect;
                n_assignedToId := d_assignedToId defect;
                n_assignedToName := d_assignedToName defect;
                n_targetRectificationDate :=
                  d_targetRectificationDate defect;
                n_complianceTags := d_complianceTags defect;
                n_actions := d_actions defect;
                n_attachments := default [] (reopenAttachments data);
                n_beforeAfterRequired := d_beforeAfterRequired defect;
                n_comments := [];
                n_createdAt := createdAt;
                n_createdBy := userId;
                n_createdByName := userName;
                n_updatedAt := updatedAt;
                n_updatedBy := userId;
                n_updatedByName := userName;
                n_reopenedCount := None |} ;;
           (* Link the new defect to the parent *)
           updateDefectData (d_id newDefect)
             {| p_status := None; p_closedAt := None; p_closedBy := None;
                p_closedByName := None; p_actionTaken := None;
                p_comments := None; p_attachments := None;
                p_unsafeDoNotUse := None; p_updatedBy := None;
                p_updatedByName := None;
                p_parentDefectId := Some (Some (d_id defect));
                p_recurrenceCount := Some (Some 0);
                p_reopenedCount := None |} ;;
           (* Update parent defect's recurrence count *)
           updateDefectData (d_id defect)
             {| p_status := None; p_closedAt := None; p_closedBy := None;
                p_closedByName := None; p_actionTaken := None;
                p_comments := None; p_attachments := None;
                p_unsafeDoNotUse := None; p_updatedBy := None;
                p_updatedByName := None;
                p_parentDefectId := None;
                p_recurrenceCount :=
                  Some (Some (default 0 (d_recurrenceCount defect) + 1));
                p_reopenedCount := None |} ;;
           (* Return the new defect ID so caller can navigate *)
           ret (d_id newDefect)
         else
           (* Reopen same defect *)
           updateDefectData defectId
             {| p_status := Some Open;
                p_closedAt := Some None;
                p_closedBy := Some None;
                p_closedByName := Some None;
                p_actionTaken := None;
                p_comments := None;
                p_attachments :=
                  Some (match reopenAttachments data with
                        | Some atts => d_attachments defect ++ atts
                        | None => d_attachments defect
                        end);
                p_unsafeDoNotUse := None;
                p_updatedBy := Some userId;
                p_updatedByName := Some userName;
                p_parentDefectId := None;
                p_recurrenceCount := None;
                p_reopenedCount := Some (d_reopenedCount defect + 1) |} ;;
           historyAt <- nowISO ;;
           addHistoryEntry defectId
             {| h_at := historyAt; h_by := userId; h_byName := userName;
                h_type := "reopen";
                h_summary := "Defect reopened: " +:+ reason data;
                h_data := None |} ;;
           commentAt <- nowISO ;;
           addDefectComment defectId
             {| nc_at := commentAt; nc_by := userId; nc_byName := userName;
                nc_text := "Reopened: " +:+ reason data |} ;;
           addToSyncQueue "reopenDefect" defectId (PayloadReopen data) ;;
           refreshSyncQueue ;;
           ret defectId
     end)
    reportAndRethrow.

End Provider.

(** The close and reopen buttons of the detail page:
    [canCloseDefect(user?.role) && defect.status !== 'Closed'] and
    [canReopenDefect(user?.role) && defect.status === 'Closed'].  The role
    checks belong to the permission helpers; their verdict is an argument. *)
Definition canClose (roleMayClose : bool) (defect : Defect) : bool :=
  roleMayClose && bool_decide (d_status defect ≠ Closed).

Definition canReopen (roleMayReopen : bool) (defect : Defect) : bool :=
  roleMayReopen && bool_decide (d_status defect = Closed).

(** ** Assets: status validation and bulk update *)

Module Assets.

Inductive OperationalStatus :=
  | InUse | OutOfUse | OffHirePending | OffHired | Quarantined | Archived.

Inductive LifecycleStatus :=
  | Active | Decommissioned | Disposed | Expected.

Inductive ComplianceRAG := Red | Amber | Green.

#[global] Instance OperationalStatus_eq_dec : EqDecision OperationalStatus.
Proof. solve_decision. Defined.
#[global] Instance LifecycleStatus_eq_dec : EqDecision LifecycleStatus.
Proof. solve_decision. Defined.

Record Asset := mkAsset {
  id : string;
  operationalStatus : OperationalStatus;
  lifecycleStatus : LifecycleStatus;
  complianceRAG : ComplianceRAG;
  openIssuesCount : option nat;
}.

(** [Partial<Asset>] as the bulk handler fills it: the two status keys. *)
Record AssetPatch := mkAssetPatch {
  u_operationalStatus : option OperationalStatus;
  u_lifecycleStatus : option LifecycleStatus;
}.

(** The result of the validator:
    [{ isValid, message?, autoCorrect? }], where [autoCorrect] may carry
    an [operationalStatus] and a [lifecycleStatus]. *)
Record Validation := mkValidation {
  isValid : bool;
  message : option string;
  autoCorrect : option AssetPatch;
}.

(** One row of the validity table. *)
Inductive Verdict :=
  | Valid
  | Invalid (why : string)
  | AutoCorrectTo (why : string) (corr : AssetPatch).

(** Modelled from the spec: [utils/statusValidation] is not among the
    sources, and the spec states the table by its rows: a Disposed asset
    must be OffHired or Archived, any other operational status is invalid
    and auto-correctable to Archived; every other pair (Quarantined with
    Active among them) is valid. *)
Definition validityTable (op : OperationalStatus) (lc : LifecycleStatus)
  : Verdict :=
  match lc, op with
  | Disposed, OffHired | Disposed, Archived => Valid
  | Disposed, _ =>
      AutoCorrectTo "Disposed assets must be Off Hired or Archived"
        {| u_operationalStatus := Some Archived;
           u_lifecycleStatus := None |}
  | _, _ => Valid
  end.

Definition verdictIsValid (v : Verdict) : bool :=
  match v with Valid => true | _ => false end.

(** Modelled from the spec: [validateStatusCombination] is not among the
    sources.  Both arguments are optional; with one of them missing no
    pair is being changed and the result is valid.  Otherwise the result
    is the row of the table. *)
Definition validateStatusCombination
    (op : option OperationalStatus) (lc : option LifecycleStatus)
  : Validation :=
  match op, lc with
  | Some op, Some lc =>
      match validityTable op lc with
      | Valid => mkValidation true None None
      | Invalid why => mkValidation false (Some why) None
      | AutoCorrectTo why corr => mkValidation false (Some why) (Some corr)
      end
  | _, _ => mkValidation true None None
  end.

(** Applying an auto-correction to a pair: present keys replace. *)
Definition applyAutoCorrect (corr : AssetPatch)
    (pair : OperationalStatus * LifecycleStatus)
  : OperationalStatus * LifecycleStatus :=
  (default (fst pair) (u_operationalStatus corr),
   default (snd pair) (u_lifecycleStatus corr)).

Definition applyAssetPatch (a : Asset) (u : AssetPatch) : Asset :=
  {| id := id a;
     operationalStatus :=
       default (operationalStatus a) (u_operationalStatus u);
     lifecycleStatus := default (lifecycleStatus a) (u_lifecycleStatus u);
     complianceRAG := complianceRAG a;
     openIssuesCount := openIssuesCount a |}.

Record BulkError := mkBulkError {
  errorId : string;
  errorReason : string;
}.

Record BulkResult := mkBulkResult {
  updated : nat;
  errors : list BulkError;
}.

Section Bulk.
(** The coordinator is stated over any validator with the contract of
    [validateStatusCombination]. *)
Context (validate : option OperationalStatus -> option LifecycleStatus
                    -> Validation).

(** Modelled from the spec: the re-validation step of the coordinator.
    The combination is checked only when both statuses are part of the
    update; an auto-correction is applied transparently; an invalid
    combination without one is a failure with the validator's message. *)
Definition resolveUpdates (updates : AssetPatch) : string + AssetPatch :=
  match u_operationalStatus updates, u_lifecycleStatus updates with
  | Some op, Some lc =>
      let v := validate (Some op) (Some lc) in
      match autoCorrect v with
      | Some corr =>
          inr {| u_operationalStatus :=
                   Some (default op (u_operationalStatus corr));
                 u_lifecycleStatus :=
                   Some (default lc (u_lifecycleStatus corr)) |}
      | None =>
          if isValid v then inr updates
          else inl (default "Invalid status combination" (message v))
      end
  | _, _ => inr updates
  end.

(** Modelled from the spec: [bulkUpdateAssets] of the assets services
    is not among the sources.  For each id, in input order: load the
    asset, re-validate, persist and count; a per-item failure is
    recorded as [{id, reason}] and the loop continues. *)
Fixpoint bulkLoop (ids : list string) (updates : AssetPatch)
    (store : gmap string Asset) (result : BulkResult)
  : BulkResult * gmap string Asset :=
  match ids with
  | [] => (result, store)
  | i :: rest =>
      match store !! i with
      | None =>
          bulkLoop rest updates store
            (mkBulkResult (updated result)
               (errors result ++ [mkBulkError i "Asset not found"]))
      | Some a =>
          match resolveUpdates updates with
          | inl why =>
              bulkLoop rest updates store
                (mkBulkResult (updated result)
                   (errors result ++ [mkBulkError i why]))
          | inr u =>
              bulkLoop rest updates (<[i := applyAssetPatch a u]> store)
                (mkBulkResult (S (updated result)) (errors result))
          end
      end
  end.

(** Modelled from the spec: [bulkUpdateAssets(ids, updates)] returns
    [{ updated, errors }]; the second component is the assets service
    after the batch. *)
Definition bulkUpdateAssets (ids : list string) (updates : AssetPatch)
    (store : gmap string Asset) : BulkResult * gmap string Asset :=
  bulkLoop ids updates store (mkBulkResult 0 []).

(** An id fails when it does not resolve to an asset, or when the
    update is rejected by the validation step. *)
Definition itemFails (store : gmap string Asset) (updates : AssetPatch)
    (i : string) : bool :=
  match store !! i, resolveUpdates updates with
  | Some _, inr _ => false
  | _, _ => true
  end.

End Bulk.

(** *** The bulk handler of the assets page *)

Inductive ToastKind := ToastError | ToastWarning | ToastSuccess.

Record Page := mkPage {
  selectedIds : list string;                      (* tableSelection *)
  bulkOperationalStatus : option OperationalStatus; (* [''] is [None] *)
  bulkLifecycleStatus : option LifecycleStatus;
  assets : gmap string Asset;                     (* the assets service *)
  toasts : list (string * ToastKind);             (* shown so far *)
}.

Definition showToast (msg : string) (kind : ToastKind) (pg : Page) : Page :=
  mkPage (selectedIds pg) (bulkOperationalStatus pg)
         (bulkLifecycleStatus pg) (assets pg) (toasts pg ++ [(msg, kind)]).

(** [validation.message || 'Invalid status combination'] *)
Definition messageOr (m : option string) (fallback : string) : string :=
  match m with
  | Some s => if bool_decide (s = "") then fallback else s
  | None => fallback
  end.

(** The first half of [handleBulkUpdate]: the update object it builds,
    or the message it rejects the request with. *)
Definition buildUpdates (bulkOp : option OperationalStatus)
    (bulkLc : option LifecycleStatus) : string + (AssetPatch * bool) :=
  match bulkOp, bulkLc with
  | Some op, Some lc =>
      (* Validate status combination if both are being changed *)
      let validation := validateStatusCombination (Some op) (Some lc) in
      if negb (isValid validation) then
        inl (messageOr (message validation) "Invalid status combination")
      else
        (* Apply auto-correction if needed *)
        match autoCorrect validation with
        | Some corr =>
            inr ({| u_operationalStatus := u_operationalStatus corr;
                    u_lifecycleStatus := u_lifecycleStatus corr |},
                 bool_decide (is_Some (u_operationalStatus corr))
                 || bool_decide (is_Some (u_lifecycleStatus corr)))
        | None =>
            inr ({| u_operationalStatus := Some op;
                    u_lifecycleStatus := Some lc |}, true)
        end
  | Some op, None =>
      inr ({| u_operationalStatus := Some op;
              u_lifecycleStatus := None |}, true)
  | None, Some lc =>
      inr ({| u_operationalStatus := None;
              u_lifecycleStatus := Some lc |}, true)
  | None, None =>
      inr ({| u_operationalStatus := None;
              u_lifecycleStatus := None |}, false)
  end.

Definition handleBulkUpdate (pg : Page) : Page :=
  if bool_decide (length (selectedIds pg) = 0) then pg
  else
    match buildUpdates (bulkOperationalStatus pg) (bulkLifecycleStatus pg)
    with
    | inl msg => showToast msg ToastError pg
    | inr (updates, hasUpdates) =>
        if negb hasUpdates then
          showToast "Please select a status to change" ToastError pg
        else
          let '(result, store) :=
            bulkUpdateAssets validateStatusCombination (selectedIds pg)
                             updates (assets pg) in
          let toast :=
            if bool_decide (0 < length (errors result)) then
              ("Updated " +:+ pretty (updated result) +:+ " assets. "
                 +:+ pretty (length (errors result)) +:+ " failed.",
               ToastWarning)
            else
              ("Updated " +:+ pretty (updated result) +:+ " assets",
               ToastSuccess) in
          (* Clear selection and reset form *)
          mkPage [] None None store (toasts pg ++ [toast])
    end.

End Assets.

(** ** Worlds after a step, and sample data *)

(** The world [updateDefectData] leaves behind when the record exists:
    the merged record is stored, the reducer has seen [UPDATE_DEFECT], the
    queue has one more [updateDefect] item, and the queue count and the
    summary have been refreshed. *)
Definition worldAfterUpdate (env : Env) (id : string) (updates : DefectPatch)
    (updated : Defect) (w : World) : World :=
  let db' := <[id := updated]> (w_db w) in
  let queue' :=
    w_queue w ++ [mkSyncItem "updateDefect" id (PayloadPatch updates)] in
  mkWorld db' queue'
    (defectsReducer
       (defectsReducer
          (defectsReducer (w_state w) (UPDATE_DEFECT updated))
          (SET_SYNC_QUEUE_COUNT (length queue')))
       (SET_SUMMARY (env_summary env db')))
    (w_time w) (w_uuids w) (w_created w).

(** The world after the [catch] block of a lifecycle operation. *)
Definition worldAfterError (msg : string) (w : World) : World :=
  set_state (fun s => defectsReducer s (SET_ERROR (Some msg))) w.

Module Sample.

Definition env : Env :=
  {| env_clock := fun n => "2026-01-10T08:00:0" +:+ pretty n +:+ ".000Z";
     env_uuid := fun n => "uuid-" +:+ pretty n;
     env_assign := fun n _ =>
       mkAssigned ("new-" +:+ pretty n) ("DEF-00000" +:+ pretty (n + 2))
                  false;
     env_summary := fun db => mkSummary (size db) 0 0 0 |}.

(** An open, unsafe defect in the shape of the seed data. *)
Definition d1 : Defect :=
  {| d_id := "d1";
     d_defectCode := "DEF-000001";
     d_title := "Safety-critical: E-Stop not latching on control panel";
     d_description := "E-Stop button does not latch when pressed.";
     d_severity := "High";
     d_severityModel := "LMH";
     d_status := Open;
     d_assetId := "AST-000147";
     d_siteId := "2";
     d_locationId := None;
     d_assignedToId := Some "user-2";
     d_assignedToName := Some "Sarah Johnson";
     d_targetRectificationDate := Some "2025-12-28";
     d_complianceTags := [];
     d_actions := [];
     d_attachments := [];
     d_beforeAfterRequired := true;
     d_history := [];
     d_comments := [];
     d_createdAt := "2025-12-27T09:40:00.000Z";
     d_createdBy := "user-2";
     d_createdByName := "Supervisor (Shift A)";
     d_updatedAt := "2025-12-27T09:40:00.000Z";
     d_updatedBy := "user-2";
     d_updatedByName := "Supervisor (Shift A)";
     d_unsafeDoNotUse := true;
     d_parentDefectId := None;
     d_recurrenceCount := None;
     d_reopenedCount := 0;
     d_closedAt := None;
     d_closedBy := None;
     d_closedByName := None;
     d_actionTaken := None |}.

(** The same defect once closed. *)
Definition d1closed : Defect :=
  applyPatch d1
    {| p_status := Some Closed;
       p_closedAt := Some (Some "2026-01-09T17:00:00.000Z");
       p_closedBy := Some (Some "user-1");
       p_closedByName := Some (Some "John Smith");
       p_actionTaken := Some (Some "Replaced latch");
       p_comments := None; p_attachments := None;
       p_unsafeDoNotUse := None; p_updatedBy := None;
       p_updatedByName := None; p_parentDefectId := None;
       p_recurrenceCount := None; p_reopenedCount := None |}.

Definition state0 (ds : list Defect) : DefectsState :=
  mkState ds None (mkSummary (length ds) 0 0 0) 0 false None.

Definition world (d : Defect) : World :=
  mkWorld (<[d_id d := d]> ∅) [] (state0 [d]) 0 0 0.

Definition closeData : CloseData :=
  {| actionTaken := "Replaced seal"; notes := "Tested ok";
     attachments := []; returnToService := Some true |}.

Definition plainClose : CloseData :=
  {| actionTaken := "Tightened fitting"; notes := "No further seep";
     attachments := ["after.jpg"]; returnToService := None |}.

(** Two assets of the registry. *)
Definition sampleStore : gmap string Assets.Asset :=
  <["a1" := Assets.mkAsset "a1" Assets.InUse Assets.Active Assets.Green None]>
    (<["a2" := Assets.mkAsset "a2" Assets.Quarantined Assets.Active
                              Assets.Red (Some 2)]> ∅).

End Sample.

(** The record [closeDefect] leaves in the table: the merge of its update,
    then the close entry and, when the asset is returned to service from an
    unsafe state, the clearance entry. *)
Definition closeEntries (data : CloseData) (userId userName now : string)
    (d : Defect) : list HistoryEntry :=
  mkHistory now userId userName "close" (closeSummary data)
            (Some (mkHistoryData (actionTaken data) (returnToService data)))
  :: (if default false (returnToService data) && d_unsafeDoNotUse d
      then [mkHistory now userId userName "status_change"
                      "Asset returned to service - Unsafe flag cleared" None]
      else []).

Definition closePatch (data : CloseData) (userId userName now cid : string)
    (d : Defect) : DefectPatch :=
  {| p_status := Some Closed;
     p_closedAt := Some (Some now);
     p_closedBy := Some (Some userId);
     p_closedByName := Some (Some userName);
     p_actionTaken := Some (Some (actionTaken data));
     p_comments :=
       Some (d_comments d ++
             [mkComment cid now userId userName (closeSummary data)]);
     p_attachments := Some (d_attachments d ++ attachments data);
     p_unsafeDoNotUse :=
       Some (if bool_decide (returnToService data = Some true)
             then false else d_unsafeDoNotUse d);
     p_updatedBy := Some userId;
     p_updatedByName := Some userName;
     p_parentDefectId := None;
     p_recurrenceCount := None;
     p_reopenedCount := None |}.

Definition closedRecord (data : CloseData) (userId userName now cid : string)
    (d : Defect) : Defect :=
  withHistory (applyPatch d (closePatch data userId userName now cid d))
              (d_history d ++ closeEntries data userId userName now d).

(** The record a same-record reopen leaves in the table. *)
Definition reopenPatch (data : ReopenData) (userId userName : string)
    (d : Defect) : DefectPatch :=
  {| p_status := Some Open;
     p_closedAt := Some None;
     p_closedBy := Some None;
     p_closedByName := Some None;
     p_actionTaken := None;
     p_comments := None;
     p_attachments :=
       Some (match reopenAttachments data with
             | Some atts => d_attachments d ++ atts
             | None => d_attachments d
             end);
     p_unsafeDoNotUse := None;
     p_updatedBy := Some userId;
     p_updatedByName := Some userName;
     p_parentDefectId := None;
     p_recurrenceCount := None;
     p_reopenedCount := Some (d_reopenedCount d + 1) |}.

Definition reopenedRecord (env : Env) (data : ReopenData)
    (userId userName : string) (w : World) (d : Defect) : Defect :=
  withComments
    (withHistory (applyPatch d (reopenPatch data userId userName d))
       (d_history d ++
        [mkHistory (env_clock env (w_time w)) userId userName "reopen"
                   ("Defect reopened: " +:+ reason data) None]))
    (d_comments d ++
     [mkComment (env_uuid env (w_uuids w)) (env_clock env (S (w_time w)))
                userId userName ("Reopened: " +:+ reason data)]).

(** What [loadDefect] resolves an id to. *)
Definition resolveDefect (id : string) (db : gmap string Defect)
  : option Defect :=
  match db !! id with
  | Some d => Some d
  | None => if String.prefix "DEF-" id then findByCode id db else None
  end.

(** The record a recurrence starts as, and the two updates that link it to
    its parent. *)
Definition recurrenceInput (data : ReopenData) (userId userName : string)
    (createdAt updatedAt : string) (d : Defect) : NewDefect :=
  {| n_title := d_title d;
     n_description :=
       "Recurrence of " +:+ d_defectCode d +:+ ": " +:+ reason data;
     n_severity := d_severity d;
     n_severityModel := d_severityModel d;
     n_status := Open;
     n_assetId := d_assetId d;
     n_siteId := d_siteId d;
     n_locationId := d_locationId d;
     n_assignedToId := d_assignedToId d;
     n_assignedToName := d_assignedToName d;
     n_targetRectificationDate := d_targetRectificationDate d;
     n_complianceTags := d_complianceTags d;
     n_actions := d_actions d;
     n_attachments := default [] (reopenAttachments data);
     n_beforeAfterRequired := d_beforeAfterRequired d;
     n_comments := [];
     n_createdAt := createdAt;
     n_createdBy := userId;
     n_createdByName := userName;
     n_updatedAt := updatedAt;
     n_updatedBy := userId;
     n_updatedByName := userName;
     n_reopenedCount := None |}.

Definition linkPatch (parent : Defect) : DefectPatch :=
  {| p_status := None; p_closedAt := None; p_closedBy := None;
     p_closedByName := None; p_actionTaken := None; p_comments := None;
     p_attachments := None; p_unsafeDoNotUse := None; p_updatedBy := None;
     p_updatedByName := None;
     p_parentDefectId := Some (Some (d_id parent));
     p_recurrenceCount := Some (Some 0);
     p_reopenedCount := None |}.

Definition countPatch (parent : Defect) : DefectPatch :=
  {| p_status := None; p_closedAt := None; p_closedBy := None;
     p_closedByName := None; p_actionTaken := None; p_comments := None;
     p_attachments := None; p_unsafeDoNotUse := None; p_updatedBy := None;
     p_updatedByName := None; p_parentDefectId := None;
     p_recurrenceCount :=
       Some (Some (default 0 (d_recurrenceCount parent) + 1));
     p_reopenedCount := None |}.

Definition recurrenceRecord (env : Env) (data : ReopenData)
    (userId userName : string) (w : World) (d : Defect) : Defect :=
  let n := recurrenceInput data userId userName (env_clock env (w_time w))
             (env_clock env (S (w_time w))) d in
  applyPatch (completeDefect n (env_assign env (w_created w) n)) (linkPatch d).

(** The table is keyed by the id of the record it holds. *)
Definition keyedById (db : gmap string Defect) : Prop :=
  map_Forall (fun id d => d_id d = id) db.

(** ** The defect detail page *)

Module DetailPage.

(** The signed-in user, as the handlers read it: [user!.id] and
    [`${user!.firstName} ${user!.lastName}`]. *)
Record User := mkUser {
  userId : string;
  firstName : string;
  lastName : string;
}.

Definition fullName (user : User) : string :=
  firstName user +:+ " " +:+ lastName user.

(** The state the page keeps beside the provider's: the related defects,
    the route it last navigated to, and whether the update dialog shows. *)
Record View := mkView {
  relatedDefects : list Defect;
  location : option string;
  showAddUpdateModal : bool;
}.

(** The filter of [loadRelatedDefects]:
    [(d.parentDefectId === currentDefect.id
      || d.id === currentDefect.parentDefectId)
     && d.id !== currentDefect.id]. *)
Definition isRelated (currentDefect d : Defect) : bool :=
  (bool_decide (d_parentDefectId d = Some (d_id currentDefect))
   || bool_decide (Some (d_id d) = d_parentDefectId currentDefect))
  && bool_decide (d_id d ≠ d_id currentDefect).

(** Modelled from the spec: [getAllDefects] of [db/repository] is not among
    the sources; it yields every record of the table. *)
Definition getAllDefects : M (list Defect) := queryDefects.

Definition loadRelatedDefects (currentDefect : option Defect) (pg : View)
  : M View :=
  match currentDefect with
  | None => ret pg
  | Some current =>
      tryCatch
        (allDefects <- getAllDefects ;;
         ret (mkView (List.filter (isRelated current) allDefects)
                     (location pg) (showAddUpdateModal pg)))
        (fun _ => ret pg)
  end.

Section Handlers.
Context (env : Env).

(** The handlers close over the [currentDefect] of the render they were
    created in; it is their first argument. *)
Definition handleCloseDefect (currentDefect : option Defect)
    (data : CloseData) (user : User) : M unit :=
  match currentDefect with
  | None => ret tt
  | Some current =>
      closeDefect env (d_id current) data (userId user) (fullName user) ;;
      loadDefect (d_id current) ;;
      loadDefects
  end.

Definition handleReopenDefect (currentDefect : option Defect)
    (data : ReopenData) (user : User) (pg : View) : M View :=
  match currentDefect with
  | None => ret pg
  | Some current =>
      newDefectId <- reopenDefect env (d_id current) data (userId user)
                                  (fullName user) ;;
      if isNewOccurrence data then
        ret (mkView (relatedDefects pg) (Some ("/defects/" +:+ newDefectId))
                    (showAddUpdateModal pg))
      else
        loadDefect (d_id current) ;;
        pg' <- loadRelatedDefects currentDefect pg ;;
        loadDefects ;;
        ret pg'
  end.

(** The [onReopen] of the update dialog; [defect] is the current defect of
    the render. *)
Definition updateModalOnReopen (defect : Defect) (data : ReopenData)
    (user : User) (pg : View) : M View :=
  pg' <-
    (if isNewOccurrence data then
       handleReopenDefect (Some defect) data user pg
     else
       (* Same defect - add comment, attachments, and history entry *)
       now <- nowISO env ;;
       (* Add attachments if provided *)
       match reopenAttachments data with
       | Some (a :: atts) =>
           updateDefectData env (d_id defect)
             {| p_status := None; p_closedAt := None; p_closedBy := None;
                p_closedByName := None; p_actionTaken := None;
                p_comments := None;
                p_attachments := Some (d_attachments defect ++ a :: atts);
                p_unsafeDoNotUse := None;
                p_updatedBy := Some (userId user);
                p_updatedByName := Some (fullName user);
                p_parentDefectId := None; p_recurrenceCount := None;
                p_reopenedCount := None |} ;;
           ret tt
       | _ => ret tt
       end ;;
       addDefectComment env (d_id defect)
         {| nc_at := now; nc_by := userId user; nc_byName := fullName user;
            nc_text := "Update: " +:+ reason data |} ;;
       (* If closed, reopen it *)
       if bool_decide (d_status defect = Closed) then
         handleReopenDefect (Some defect)
           (mkReopenData false (reason data) (reopenAttachments data))
           user pg
       else
         loadDefect (d_id defect) ;;
         ret pg) ;;
  ret (mkView (relatedDefects pg') (location pg') false).

(** [hasRecurrences]:
    [relatedDefects.length > 0 || (defect.recurrenceCount || 0) > 0]. *)
Definition hasRecurrences (defect : Defect) (pg : View) : bool :=
  bool_decide (0 < length (relatedDefects pg))
  || bool_decide (0 < default 0 (d_recurrenceCount defect)).

End Handlers.

End DetailPage.

(** ** List pages: filters and KPI counts *)

Module ListFilters.

(** The value of a select filter: [string | string[]]. *)
Inductive SelectValue :=
  | One (s : string)
  | Many (l : list string).

(** A filter object holds select values and boolean flags under its keys
    ([AssetFilter], [PMScheduleFilter]). *)
Inductive FilterValue :=
  | Select (v : SelectValue)
  | Flag (b : bool).

(** [filters.key] read as a select value; [undefined] when the key is
    absent. *)
Definition selectOf (filters : gmap string FilterValue) (key : string)
  : option SelectValue :=
  match filters !! key with
  | Some (Select v) => Some v
  | _ => None
  end.

(** [!value || (Array.isArray(value) && value.length === 0) || value === ''] *)
Definition isBlank (value : option SelectValue) : bool :=
  match value with
  | None => true
  | Some (One s) => bool_decide (s = "")
  | Some (Many l) => bool_decide (length l = 0)
  end.

(** [handleFilterChange], as both list pages define it: the function given
    to [setFilters]. *)
Definition handleFilterChange (groupId : string) (value : option SelectValue)
    (prev : gmap string FilterValue) : gmap string FilterValue :=
  match value with
  | Some v => if isBlank value then delete groupId prev
              else <[groupId := Select v]> prev
  | None => delete groupId prev
  end.

Definition handleMultiSelectChange (groupId : string) (selected : list string)
    (prev : gmap string FilterValue) : gmap string FilterValue :=
  handleFilterChange groupId
    (if bool_decide (0 < length selected) then Some (Many selected) else None)
    prev.

(** [getSelectedArray]:
    [if (!value) return []; return Array.isArray(value) ? value : [value]]. *)
Definition getSelectedArray (value : option SelectValue) : list string :=
  match value with
  | None => []
  | Some (One s) => if bool_decide (s = "") then [] else [s]
  | Some (Many l) => l
  end.

(** One summand of [activeFilterCount]:
    [filters.key && (Array.isArray(filters.key) ? filters.key.length > 0 : true)]. *)
Definition isActive (filters : gmap string FilterValue) (key : string)
  : bool :=
  match filters !! key with
  | Some (Select (One s)) => negb (bool_decide (s = ""))
  | Some (Select (Many l)) => bool_decide (0 < length l)
  | Some (Flag b) => b
  | None => false
  end.

End ListFilters.

Module AssetsPage.
Import ListFilters.

(** The select groups that [activeFilterCount] goes through, in its order. *)
Definition filterGroups : list string :=
  ["siteId"; "assetTypeId"; "operationalStatus"; "lifecycleStatus";
   "complianceRAG"; "ownership"; "responsibleTeam"; "criticality"].

Definition activeFilterCount (filters : gmap string FilterValue) : nat :=
  fold_left (fun count key => if isActive filters key then S count else count)
            filterGroups 0.

(** [{ includeArchived: false }], the filters at start and after
    [clearFilters]. *)
Definition emptyFilters : gmap string FilterValue :=
  {[ "includeArchived" := Flag false ]}.

(** [kpiStats], over the assets that [getAssets] returned. *)
Record KpiStats := mkKpiStats {
  totalAssets : nat;
  nonCompliantAssets : nat;
  redAssets : nat;
  amberAssets : nat;
  assetsWithOpenIssues : nat;
  outOfServiceQuarantined : nat;
}.

Definition kpiStats (baseAssets : list Assets.Asset) : KpiStats :=
  {| totalAssets := length baseAssets;
     nonCompliantAssets :=
       length (List.filter
                 (fun a => match Assets.complianceRAG a with
                           | Assets.Red | Assets.Amber => true
                           | Assets.Green => false
                           end) baseAssets);
     redAssets :=
       length (List.filter
                 (fun a => match Assets.complianceRAG a with
                           | Assets.Red => true | _ => false end) baseAssets);
     amberAssets :=
       length (List.filter
                 (fun a => match Assets.complianceRAG a with
                           | Assets.Amber => true | _ => false end)
                 baseAssets);
     assetsWithOpenIssues :=
       length (List.filter
                 (fun a => bool_decide
                             (0 < default 0 (Assets.openIssuesCount a)))
                 baseAssets);
     outOfServiceQuarantined :=
       length (List.filter
                 (fun a => match Assets.operationalStatus a with
                           | Assets.Quarantined | Assets.OutOfUse => true
                           | _ => false
                           end) baseAssets) |}.

End AssetsPage.

Module PMSchedules.
Import ListFilters.

(** [allFrequencies] of the hide-weekly filter. *)
Definition allFrequencies : list string :=
  ["Daily"; "Weekly"; "Monthly"; "Quarterly"; "6-Monthly"; "Annual"].

(** [currentFreq.includes(x)] *)
Definition includes (x : string) (l : list string) : bool :=
  existsb (fun y => bool_decide (y = x)) l.

(** The [isHidingWeekly] memo: the checked state of the hide-weekly box. *)
Definition isHidingWeekly (filters : gmap string FilterValue) : bool :=
  let currentFreq := getSelectedArray (selectOf filters "frequencyCategory") in
  bool_decide (0 < length currentFreq)
  && negb (includes "Weekly" currentFreq)
  && bool_decide (length currentFreq < length allFrequencies).

(** [handleHideWeekly]; [checked] is [e.target.checked]. *)
Definition handleHideWeekly (checked : bool)
    (filters : gmap string FilterValue) : gmap string FilterValue :=
  if checked then
    (* Hide weekly - show all except weekly *)
    handleFilterChange "frequencyCategory"
      (Some (Many (List.filter (fun f => negb (bool_decide (f = "Weekly")))
                               allFrequencies)))
      filters
  else
    (* Show all (clear filter) *)
    handleFilterChange "frequencyCategory" None filters.

(** [handleShowSafetyStatutoryOnly] *)
Definition handleShowSafetyStatutoryOnly (checked : bool)
    (filters : gmap string FilterValue) : gmap string FilterValue :=
  if checked then
    handleFilterChange "importanceLevel"
      (Some (Many ["Safety Critical"; "Statutory"])) filters
  else
    handleFilterChange "importanceLevel" None filters.

(** The checked state of the safety/statutory box. *)
Definition isSafetyStatutoryOnly (filters : gmap string FilterValue) : bool :=
  let selected := getSelectedArray (selectOf filters "importanceLevel") in
  bool_decide (length selected = 2)
  && includes "Safety Critical" selected
  && includes "Statutory" selected.

End PMSchedules.

(** ** Exporting rows *)

Module ExportUtils.

(** A value found in a row ([any]): [null]/[undefined], a string, a
    non-negative whole number, or a boolean. *)
Inductive Cell :=
  | CNull
  | CStr (s : string)
  | CNum (n : N)
  | CBool (b : bool).

(** A row object: its keys in the order of [Object.keys] and the value under
    each (keys are taken to be distinct and not array indices). *)
Definition Row := list (string * Cell).

(** [row[key]]; [undefined] when the key is absent. *)
Definition rowGet (row : Row) (key : string) : Cell :=
  match find (fun kv => bool_decide (fst kv = key)) row with
  | Some kv => snd kv
  | None => CNull
  end.

(** [String(value)] *)
Definition stringOf (value : Cell) : string :=
  match value with
  | CNull => "undefined"
  | CStr s => s
  | CNum n => pretty n
  | CBool true => "true"
  | CBool false => "false"
  end.

(** [String(value || '')]: a falsy value gives the empty string. *)
Definition stringOrEmpty (value : Cell) : string :=
  match value with
  | CNull => ""
  | CStr s => s
  | CNum n => if bool_decide (n = 0%N) then "" else pretty n
  | CBool true => "true"
  | CBool false => ""
  end.

(** The double quote, the comma and the line feed. *)
Definition dquote : Ascii.ascii := Ascii.ascii_of_nat 34.
Definition comma : Ascii.ascii := Ascii.ascii_of_nat 44.
Definition newline : Ascii.ascii := Ascii.ascii_of_nat 10.

(** [stringValue.includes(c)] for a one-character [c]. *)
Fixpoint includesChar (c : Ascii.ascii) (s : string) : bool :=
  match s with
  | EmptyString => false
  | String x rest => bool_decide (x = c) || includesChar c rest
  end.

(** The [replace] of the escape: every double quote is doubled. *)
Fixpoint doubleQuotes (s : string) : string :=
  match s with
  | EmptyString => EmptyString
  | String x rest =>
      if bool_decide (x = dquote)
      then String dquote (String dquote (doubleQuotes rest))
      else String x (doubleQuotes rest)
  end.

(** One field of a data line of [exportToCSV]. *)
Definition csvField (value : Cell) : string :=
  match value with
  | CNull => ""
  | _ =>
      let stringValue := stringOf value in
      (* Escape commas and quotes *)
      if includesChar comma stringValue || includesChar dquote stringValue
         || includesChar newline stringValue
      then String dquote (doubleQuotes stringValue +:+ String dquote "")
      else stringValue
  end.

(** Whether the escape quotes a text. *)
Definition needsQuotes (s : string) : bool :=
  includesChar comma s || includesChar dquote s || includesChar newline s.

(** The number of occurrences of a character, and the sum of a list: the
    measures the properties of the escape are stated with. *)
Fixpoint countChar (c : Ascii.ascii) (s : string) : nat :=
  match s with
  | EmptyString => 0
  | String x rest => (if bool_decide (x = c) then 1 else 0) + countChar c rest
  end.

Fixpoint sumOf (l : list nat) : nat :=
  match l with
  | [] => 0
  | x :: rest => x + sumOf rest
  end.

Inductive Outcome :=
  | Alert (msg : string)
  | Download (file content mime : string).

Definition exportToCSV (data : list Row) (filename : string)
    (headers : option (list string)) : Outcome :=
  match data with
  | [] => Alert "No data to export"
  | first :: _ =>
      (* Get headers from first row if not provided *)
      let csvHeaders := default (map fst first) headers in
      (* Create CSV content *)
      let csvContent :=
        String.concat (String newline "")
          (String.concat "," csvHeaders
           :: map (fun row =>
                     String.concat ","
                       (map (fun header => csvField (rowGet row header))
                            csvHeaders))
                  data) in
      Download (filename +:+ ".csv") csvContent "text/csv;charset=utf-8;"
  end.

(** [Math.max(first, ...rest)] *)
Definition maxOf (first : nat) (rest : list nat) : nat :=
  fold_left Nat.max rest first.

(** The column widths that [exportToExcel] sets on the sheet ([ws['!cols']],
    as numbers of characters); the lengths are those of the strings as
    modelled here, one per byte. *)
Definition excelColumnWidths (data : list Row) : list nat :=
  match data with
  | [] => []
  | first :: _ =>
      map (fun header =>
             let maxLength :=
               maxOf (String.length header)
                     (map (fun row =>
                             String.length (stringOrEmpty (rowGet row header)))
                          data) in
             Nat.min (maxLength + 2) 50)
          (map fst first)
  end.

(** What a column's [render] may return: a string, a number, nothing
    ([null], [undefined], a boolean), an array, or a React element with its
    [props.children]. *)
#[warnings="-register-all"]
Inductive Node :=
  | NStr (s : string)
  | NNum (n : N)
  | NNil
  | NArray (items : list Node)
  | NElem (children : Node).

Fixpoint extractTextFromReactElement (element : Node) : string :=
  match element with
  | NStr s => s
  | NNum n => pretty n
  | NNil => ""
  | NArray _ => ""
  | NElem children =>
      match children with
      | NStr s => s
      | NNum n => if bool_decide (n = 0%N) then "" else pretty n
      | NNil => ""
      | NArray items =>
          String.concat " " (map extractTextFromReactElement items)
      | NElem _ => extractTextFromReactElement children
      end
  end.

(** A [SortableColumn], as the exports use it. *)
Record Column := mkColumn {
  key : string;
  label : option string;         (* [None]: the label is not a string *)
  render : option (Cell -> Row -> Node);
}.

(** The header of a column:
    [typeof col.label === 'string' ? col.label : col.key]. *)
Definition headerOf (col : Column) : string := default (key col) (label col).

(** The value [exportTableToExcel] puts in the sheet for a column of a
    row. *)
Definition excelCell (col : Column) (row : Row) : Cell :=
  match render col with
  | Some render =>
      match render (rowGet row (key col)) row with
      | NStr rendered => CStr rendered
      | NElem children =>
          let textContent := extractTextFromReactElement (NElem children) in
          CStr (if bool_decide (textContent = "")
                then stringOrEmpty (rowGet row (key col))
                else textContent)
      | _ => CStr (stringOrEmpty (rowGet row (key col)))
      end
  | None =>
      match rowGet row (key col) with
      | CNull => CStr ""
      | value => value
      end
  end.

(** The text [exportTableToPDF] puts in the table cell. *)
Definition pdfCell (col : Column) (row : Row) : string :=
  match render col with
  | Some render =>
      let text :=
        extractTextFromReactElement (render (rowGet row (key col)) row) in
      if bool_decide (text = "") then stringOrEmpty (rowGet row (key col))
      else text
  | None => stringOrEmpty (rowGet row (key col))
  end.

(** A count column of the assets export:
    [render: (_, row) => row.openIssuesCount ?? 0] (and the same for
    [openChecksCount]). *)
Definition countColumn (key label : string) : Column :=
  {| key := key;
     label := Some label;
     render := Some (fun _ row =>
                       match rowGet row key with
                       | CNull => NNum 0
                       | CStr s => NStr s
                       | CNum n => NNum n
                       | CBool _ => NNil
                       end) |}.

End ExportUtils.

(** ** Seeding the table in development *)

Module Seed.

Section Seeding.
Context (env : Env).

(** The loop [for (const data of seedData) await createDefect(data)]. *)
Fixpoint createEach (seedData : list NewDefect) : M unit :=
  match seedData with
  | [] => ret tt
  | data :: rest => createDefect env data ;; createEach rest
  end.

(** [seedDefects].  The five literal records of the function are its
    argument here; the settings it reads first are not used, nor are the
    dates it computes.  Only seed if database is empty. *)
Definition seedDefects (seedData : list NewDefect) : M unit :=
  existing <- DetailPage.getAllDefects ;;
  if bool_decide (0 < length existing) then ret tt
  else createEach seedData.

End Seeding.

End Seed.

(** ** More sample data *)

Module Scenario.

Definition user : DetailPage.User := DetailPage.mkUser "user-1" "John" "Smith".

(** A world in which the detail page shows defect [d]. *)
Definition viewing (d : Defect) : World :=
  mkWorld (<[d_id d := d]> ∅) []
          (mkState [d] (Some d) (mkSummary 1 0 0 0) 0 false None) 0 0 0.

Definition page : DetailPage.View := DetailPage.mkView [] None true.

(** Two sites and one ownership chosen on the assets page. *)
Definition filters : gmap string ListFilters.FilterValue :=
  ListFilters.handleMultiSelectChange "siteId" ["1"; "2"]
    (ListFilters.handleFilterChange "ownership"
       (Some (ListFilters.One "Hired")) AssetsPage.emptyFilters).

(** Two rows of an export; one value needs the escape. *)
Definition rows : list ExportUtils.Row :=
  [[("id", ExportUtils.CStr "AST-000001");
    ("make", ExportUtils.CStr "Acme, Inc");
    ("openIssuesCount", ExportUtils.CNum 0)];
   [("id", ExportUtils.CStr "AST-000002");
    ("make", ExportUtils.CStr "Volvo");
    ("openIssuesCount", ExportUtils.CNum 3)]].

(** A seed record in the shape of the first one of the seed data. *)
Definition seedData : list NewDefect :=
  [{| n_title := "Hydraulic leak at lift ram (minor seep)";
      n_description := "Light oil seep visible at the rod seal.";
      n_severity := "Medium";
      n_severityModel := "LMH";
      n_status := Open;
      n_assetId := "AST-000001";
      n_siteId := "1";
      n_locationId := None;
      n_assignedToId := None;
      n_assignedToName := None;
      n_targetRectificationDate := Some "2026-01-10";
      n_complianceTags := [];
      n_actions := [];
      n_attachments := [];
      n_beforeAfterRequired := false;
      n_comments := [];
      n_createdAt := "2025-12-27T14:12:00.000Z";
      n_createdBy := "user-1";
      n_createdByName := "M. Jones";
      n_updatedAt := "2025-12-27T14:12:00.000Z";
      n_updatedBy := "user-1";
      n_updatedByName := "M. Jones";
      n_reopenedCount := Some 0 |}].

Definition emptyWorld : World :=
  mkWorld ∅ [] (Sample.state0 []) 0 0 0.

End Scenario.

(** * Properties *)

Section Steps.
Context (env : Env).

Lemma updateDefectData_found id updates w d :
  w_db w !! id = Some d ->
  updateDefectData env id updates w
  = (Ok (applyPatch d updates),
     worldAfterUpdate env id updates (applyPatch d updates) w).
Proof.
  intros H. unfold updateDefectData, tryCatch, bind, updateDefect.
  rewrite H. reflexivity.
Qed.

Lemma addHistoryEntry_found id entry w d :
  w_db w !! id = Some d ->
  addHistoryEntry id entry w
  = (Ok tt, set_db (insert id (withHistory d (d_history d ++ [entry]))) w).
Proof. intros H. unfold addHistoryEntry. rewrite H. reflexivity. Qed.

Lemma loadDefect_run id w :
  loadDefect id w
  = (Ok tt,
     set_state
       (fun s => defectsReducer s
                   (SET_CURRENT_DEFECT (resolveDefect id (w_db w)))) w).
Proof.
  unfold loadDefect, tryCatch, bind, getDefectById, resolveDefect.
  destruct (w_db w !! id) as [d|] eqn:E; [reflexivity|].
  destruct (String.prefix "DEF-" id); cbn.
  - destruct (findByCode id (w_db w)); reflexivity.
  - reflexivity.
Qed.

Lemma loadDefects_run w :
  loadDefects w
  = (Ok tt,
     set_state
       (fun s => defectsReducer s
                   (SET_DEFECTS (snd <$> map_to_list (w_db w)))) w).
Proof. reflexivity. Qed.

Lemma refreshSyncQueue_run w :
  refreshSyncQueue w
  = (Ok tt,
     set_state
       (fun s => defectsReducer s
                   (SET_SYNC_QUEUE_COUNT (length (w_queue w)))) w).
Proof. reflexivity. Qed.

(** A comment on an existing record: the table gets the comment, the
    queue is not touched. *)
Lemma addDefectComment_found id comment w d :
  w_db w !! id = Some d ->
  exists w',
    addDefectComment env id comment w = (Ok tt, w')
    /\ w_db w'
       = <[id := withComments d
                   (d_comments d ++
                    [mkComment (env_uuid env (w_uuids w)) (nc_at comment)
                       (nc_by comment) (nc_byName comment)
                       (nc_text comment)])]> (w_db w)
    /\ w_queue w' = w_queue w
    /\ w_time w' = w_time w
    /\ w_uuids w' = S (w_uuids w)
    /\ w_created w' = w_created w.
Proof.
  intros H. unfold addDefectComment, tryCatch.
  unfold bind at 1. unfold addComment. rewrite H.
  unfold bind at 1. unfold randomUUID.
  unfold bind at 1. rewrite loadDefect_run.
  rewrite loadDefects_run.
  eexists. split; [reflexivity|]. cbn. auto.
Qed.

End Steps.

(** ** What the lifecycle operations do to an existing record *)

Lemma closeDefect_found env id data userId userName w d :
  w_db w !! id = Some d ->
  let now := env_clock env (w_time w) in
  let cid := env_uuid env (w_uuids w) in
  exists w',
    closeDefect env id data userId userName w = (Ok tt, w')
    /\ w_db w'
       = <[id := closedRecord data userId userName now cid d]> (w_db w)
    /\ w_queue w'
       = w_queue w ++
         [mkSyncItem "updateDefect" id
            (PayloadPatch (closePatch data userId userName now cid d));
          mkSyncItem "closeDefect" id (PayloadClose data)]
    /\ w_time w' = S (w_time w)
    /\ w_uuids w' = S (w_uuids w)
    /\ w_created w' = w_created w.
Proof.
  intros H now cid. unfold closeDefect, tryCatch at 1.
  unfold bind at 1. unfold getDefectById at 1. rewrite H.
  unfold bind at 1. unfold nowISO at 1.
  unfold bind at 1. unfold randomUUID at 1.
  unfold bind at 1.
  erewrite updateDefectData_found by exact H.
  unfold bind at 1.
  erewrite addHistoryEntry_found by (cbn; apply lookup_insert_eq).
  unfold closedRecord, closeEntries.
  destruct (default false (returnToService data) && d_unsafeDoNotUse d).
  - unfold bind at 1.
    erewrite addHistoryEntry_found by (cbn; apply lookup_insert_eq).
    unfold bind at 1. unfold addToSyncQueue at 1.
    rewrite refreshSyncQueue_run.
    eexists. split; [reflexivity|]. cbn.
    rewrite !insert_insert_eq, <- !app_assoc. cbn. auto 10.
  - unfold bind at 1. unfold ret at 1.
    unfold bind at 1. unfold addToSyncQueue at 1.
    rewrite refreshSyncQueue_run.
    eexists. split; [reflexivity|]. cbn.
    rewrite !insert_insert_eq, <- !app_assoc. cbn. auto 10.
Qed.

Lemma reopenDefect_same_found env id data userId userName w d :
  w_db w !! id = Some d ->
  isNewOccurrence data = false ->
  exists w',
    reopenDefect env id data userId userName w = (Ok id, w')
    /\ w_db w' = <[id := reopenedRecord env data userId userName w d]> (w_db w)
    /\ w_queue w'
       = w_queue w ++
         [mkSyncItem "updateDefect" id
            (PayloadPatch (reopenPatch data userId userName d));
          mkSyncItem "reopenDefect" id (PayloadReopen data)]
    /\ w_time w' = S (S (w_time w))
    /\ w_uuids w' = S (w_uuids w)
    /\ w_created w' = w_created w.
Proof.
  intros H Hocc. unfold reopenDefect, tryCatch at 1.
  unfold bind at 1. unfold getDefectById at 1. rewrite H, Hocc.
  unfold bind at 1.
  erewrite updateDefectData_found by exact H.
  unfold bind at 1. unfold nowISO at 1.
  unfold bind at 1.
  erewrite addHistoryEntry_found by (cbn; apply lookup_insert_eq).
  unfold bind at 1. unfold nowISO at 1.
  unfold bind at 1.
  edestruct (addDefectComment_found env id)
    as (w1 & E1 & Hdb & Hq & Ht & Hu & Hc); [ | rewrite E1 ].
  { cbn. apply lookup_insert_eq. }
  unfold bind at 1. unfold addToSyncQueue at 1.
  unfold bind at 1. rewrite refreshSyncQueue_run. unfold ret.
  eexists. split; [reflexivity|]. cbn.
  rewrite Hdb, Hq, Ht, Hu, Hc. cbn.
  rewrite !insert_insert_eq, <- !app_assoc. cbn. auto 10.
Qed.

Lemma reopenDefect_new_found env id data userId userName w d :
  w_db w !! id = Some d ->
  d_id d = id ->
  isNewOccurrence data = true ->
  let new := recurrenceRecord env data userId userName w d in
  w_db w !! d_id new = None ->
  exists w',
    reopenDefect env id data userId userName w = (Ok (d_id new), w')
    /\ w_db w'
       = <[id := applyPatch d (countPatch d)]> (<[d_id new := new]> (w_db w))
    /\ w_queue w'
       = w_queue w ++
         [mkSyncItem "updateDefect" (d_id new) (PayloadPatch (linkPatch d));
          mkSyncItem "updateDefect" id (PayloadPatch (countPatch d))]
    /\ defects (w_state w')
       = map (fun x => if bool_decide (d_id x = id)
                       then applyPatch d (countPatch d) else x)
             (map (fun x => if bool_decide (d_id x = d_id new) then new else x)
                  (defects (w_state w)))
    /\ w_time w' = S (S (w_time w))
    /\ w_uuids w' = w_uuids w
    /\ w_created w' = S (w_created w).
Proof.
  intros H Hid Hocc new Hfresh. subst id.
  assert (Hne : d_id new ≠ d_id d)
    by (intros E; rewrite E in Hfresh; congruence).
  unfold reopenDefect, tryCatch at 1.
  unfold bind at 1. unfold getDefectById at 1. rewrite H, Hocc.
  unfold bind at 1. unfold nowISO at 1.
  unfold bind at 1. unfold nowISO at 1.
  unfold bind at 1. unfold createDefect at 1.
  unfold bind at 1.
  erewrite updateDefectData_found by (cbn; apply lookup_insert_eq).
  unfold bind at 1.
  erewrite updateDefectData_found.
  2:{ cbn. rewrite insert_insert_eq.
      rewrite lookup_insert_ne by exact Hne. exact H. }
  unfold ret.
  eexists. split; [reflexivity|]. cbn.
  rewrite !insert_insert_eq, <- !app_assoc. cbn. auto 10.
Qed.

(** ** The table stays keyed by id *)

Lemma keyedById_insert db id d :
  keyedById db -> d_id d = id -> keyedById (<[id := d]> db).
Proof. intros Hk Hid. apply map_Forall_insert_2; assumption. Qed.

Lemma closeDefect_keeps_keys env id data userId userName w :
  keyedById (w_db w) ->
  keyedById (w_db (snd (closeDefect env id data userId userName w))).
Proof.
  intros Hk. destruct (w_db w !! id) as [d|] eqn:H.
  - destruct (closeDefect_found env id data userId userName w d H)
      as (w' & E & Hdb & _).
    rewrite E. cbn [snd]. rewrite Hdb.
    apply keyedById_insert; [exact Hk|]. exact (Hk id d H).
  - unfold closeDefect, tryCatch, bind, getDefectById. rewrite H. exact Hk.
Qed.

Lemma reopenDefect_keeps_keys env id data userId userName w :
  keyedById (w_db w) ->
  (forall n, w_db w !! a_id (env_assign env (w_created w) n) = None) ->
  keyedById (w_db (snd (reopenDefect env id data userId userName w))).
Proof.
  intros Hk Hfresh. destruct (w_db w !! id) as [d|] eqn:H.
  - destruct (isNewOccurrence data) eqn:Hocc.
    + edestruct (reopenDefect_new_found env id data userId userName w d)
        as (w' & E & Hdb & _);
        [exact H | exact (Hk id d H) | exact Hocc | apply Hfresh |].
      rewrite E. cbn [snd]. rewrite Hdb.
      apply keyedById_insert; [|exact (Hk id d H)].
      apply keyedById_insert; [exact Hk | reflexivity].
    + destruct (reopenDefect_same_found env id data userId userName w d
                  H Hocc) as (w' & E & Hdb & _).
      rewrite E. cbn [snd]. rewrite Hdb.
      apply keyedById_insert; [exact Hk|]. exact (Hk id d H).
  - unfold reopenDefect, tryCatch, bind, getDefectById. rewrite H. exact Hk.
Qed.

Example sample_world_keyed : keyedById (w_db (Sample.world Sample.d1)).
Proof. apply keyedById_insert; [apply map_Forall_empty | reflexivity]. Qed.

(** ** Closing *)

(** C4. Closing a defect whose status is not Closed sets status=Closed,
    closedAt=now, closedBy/closedByName=actor and actionTaken, appends
    exactly one comment whose text is "Action: {actionTaken}. {notes}"
    (so it contains actionTaken verbatim), appends the attachments, and
    appends exactly one history entry of type close; nothing else is
    appended unless the asset is returned to service from an unsafe state. *)
Theorem close_sets_closed_and_logs env id data userId userName w d :
  w_db w !! id = Some d ->
  d_status d ≠ Closed ->
  exists w' d' c h extra,
    closeDefect env id data userId userName w = (Ok tt, w')
    /\ w_db w' !! id = Some d'
    /\ d_status d' = Closed
    /\ d_closedAt d' = Some (env_clock env (w_time w))
    /\ d_closedBy d' = Some userId
    /\ d_closedByName d' = Some userName
    /\ d_actionTaken d' = Some (actionTaken data)
    /\ d_comments d' = d_comments d ++ [c]
    /\ c_text c = "Action: " +:+ actionTaken data +:+ ". " +:+ notes data
    /\ (exists pre post, c_text c = pre +:+ actionTaken data +:+ post)
    /\ d_attachments d' = d_attachments d ++ attachments data
    /\ d_history d' = d_history d ++ h :: extra
    /\ h_type h = "close"
    /\ Forall (fun e => h_type e ≠ "close") extra
    /\ (default false (returnToService data) && d_unsafeDoNotUse d = false
        -> extra = []).
Proof.
  intros H _.
  destruct (closeDefect_found env id data userId userName w d H)
    as (w' & E & Hdb & _).
  eexists w', _, _, _, _. split; [exact E|].
  split; [rewrite Hdb; apply lookup_insert_eq|].
  cbn. repeat split.
  - exists "Action: ", (". " +:+ notes data). reflexivity.
  - destruct (default false (returnToService data) && d_unsafeDoNotUse d);
      [|constructor].
    constructor; [discriminate|constructor].
  - intros ->. reflexivity.
Qed.

Lemma close_sets_closed_and_logs_witness :
  w_db (Sample.world Sample.d1) !! "d1" = Some Sample.d1
  /\ d_status Sample.d1 ≠ Closed
  /\ exists w' d' c h,
       closeDefect Sample.env "d1" Sample.plainClose "user-1" "John Smith"
                   (Sample.world Sample.d1) = (Ok tt, w')
       /\ w_db w' !! "d1" = Some d'
       /\ d_status d' = Closed
       /\ d_actionTaken d' = Some "Tightened fitting"
       /\ d_comments d' = [c]
       /\ c_text c = "Action: Tightened fitting. No further seep"
       /\ d_history d' = [h]
       /\ h_type h = "close".
Proof.
  split; [reflexivity|]. split; [discriminate|].
  destruct (close_sets_closed_and_logs Sample.env "d1" Sample.plainClose
              "user-1" "John Smith" (Sample.world Sample.d1) Sample.d1)
    as (w' & d' & c & h & extra & E & Hd & Hs & _ & _ & _ & Ha & Hc & Ht
        & _ & _ & Hh & Hty & _ & Hextra);
    [reflexivity|discriminate|].
  rewrite (Hextra eq_refl) in Hh.
  exists w', d', c, h. auto 10.
Defined.

(** C5. Closing with returnToService=true a defect that was unsafe leaves
    it Closed with unsafeDoNotUse=false and appends exactly two history
    entries: the close entry, then a status_change entry that documents
    the clearance of the safety flag. *)
Theorem close_return_to_service_logs_twice env id data userId userName w d :
  w_db w !! id = Some d ->
  returnToService data = Some true ->
  d_unsafeDoNotUse d = true ->
  exists w' d' h1 h2,
    closeDefect env id data userId userName w = (Ok tt, w')
    /\ w_db w' !! id = Some d'
    /\ d_status d' = Closed
    /\ d_unsafeDoNotUse d' = false
    /\ d_history d' = d_history d ++ [h1; h2]
    /\ h_type h1 = "close"
    /\ h_type h2 = "status_change"
    /\ h_summary h2 = "Asset returned to service - Unsafe flag cleared".
Proof.
  intros H Hrts Hunsafe.
  destruct (closeDefect_found env id data userId userName w d H)
    as (w' & E & Hdb & _).
  eexists w', _, _, _. split; [exact E|].
  split; [rewrite Hdb; apply lookup_insert_eq|].
  cbn. unfold closeEntries. rewrite Hrts, Hunsafe. cbn.
  repeat split.
Qed.

Lemma close_return_to_service_logs_twice_witness :
  w_db (Sample.world Sample.d1) !! "d1" = Some Sample.d1
  /\ returnToService Sample.closeData = Some true
  /\ d_unsafeDoNotUse Sample.d1 = true
  /\ exists w' d' h1 h2,
       closeDefect Sample.env "d1" Sample.closeData "user-1" "John Smith"
                   (Sample.world Sample.d1) = (Ok tt, w')
       /\ w_db w' !! "d1" = Some d'
       /\ d_status d' = Closed
       /\ d_unsafeDoNotUse d' = false
       /\ d_history d' = d_history Sample.d1 ++ [h1; h2].
Proof.
  split; [reflexivity|]. split; [reflexivity|]. split; [reflexivity|].
  destruct (close_return_to_service_logs_twice Sample.env "d1"
              Sample.closeData "user-1" "John Smith"
              (Sample.world Sample.d1) Sample.d1)
    as (w' & d' & h1 & h2 & E & Hd & Hs & Hu & Hh & _);
    [reflexivity|reflexivity|reflexivity|].
  exists w', d', h1, h2. auto.
Defined.

(** C1, as stated, fails: on a Closed defect [closeDefect] neither throws
    nor leaves the record alone. *)
Lemma close_on_closed_is_no_error :
  ~ (forall env id data userId userName w d,
        w_db w !! id = Some d ->
        d_status d = Closed ->
        exists r w',
          closeDefect env id data userId userName w = (r, w')
          /\ ((exists msg, r = Throw msg) \/ w_db w' !! id = Some d)).
Proof.
  intros claim.
  destruct (claim Sample.env "d1" Sample.closeData "user-1" "John Smith"
              (Sample.world Sample.d1closed) Sample.d1closed
              eq_refl eq_refl) as (r & w' & E & [[msg ->] | Hsame]).
  - vm_compute in E. discriminate E.
  - vm_compute in E. injection E as <- <-. vm_compute in Hsame.
    discriminate Hsame.
Qed.

(** C1, amended.  [closeDefect] looks at no status: whenever the id
    resolves, also to a Closed defect, it succeeds, (re)sets status=Closed
    and closedAt/closedBy/closedByName, and appends one more comment and
    one more close entry.  What keeps a Closed defect from being closed
    again is the gate of the detail page, which offers the action only
    while the status is not Closed. *)
Theorem close_is_guarded_by_the_page_only env id data userId userName w d :
  w_db w !! id = Some d ->
  (forall roleMayClose,
      d_status d = Closed -> canClose roleMayClose d = false)
  /\ exists w' d' c h extra,
       closeDefect env id data userId userName w = (Ok tt, w')
       /\ w_db w' !! id = Some d'
       /\ d_status d' = Closed
       /\ d_closedAt d' = Some (env_clock env (w_time w))
       /\ d_closedBy d' = Some userId
       /\ d_closedByName d' = Some userName
       /\ d_comments d' = d_comments d ++ [c]
       /\ d_history d' = d_history d ++ h :: extra
       /\ h_type h = "close".
Proof.
  intros H. split.
  - intros role Hs. unfold canClose. rewrite Hs.
    destruct role; reflexivity.
  - destruct (closeDefect_found env id data userId userName w d H)
      as (w' & E & Hdb & _).
    eexists w', _, _, _, _. split; [exact E|].
    split; [rewrite Hdb; apply lookup_insert_eq|].
    cbn. repeat split.
Qed.

Lemma close_is_guarded_by_the_page_only_witness :
  w_db (Sample.world Sample.d1closed) !! "d1" = Some Sample.d1closed
  /\ d_status Sample.d1closed = Closed
  /\ canClose true Sample.d1closed = false
  /\ exists w' d',
       closeDefect Sample.env "d1" Sample.closeData "user-1" "John Smith"
                   (Sample.world Sample.d1closed) = (Ok tt, w')
       /\ w_db w' !! "d1" = Some d'
       /\ d_status d' = Closed.
Proof.
  split; [reflexivity|]. split; [reflexivity|].
  destruct (close_is_guarded_by_the_page_only Sample.env "d1"
              Sample.closeData "user-1" "John Smith"
              (Sample.world Sample.d1closed) Sample.d1closed)
    as (Hgate & w' & d' & c & h & extra & E & Hd & Hs & _);
    [reflexivity|].
  split; [apply Hgate; reflexivity|].
  exists w', d'. auto.
Defined.

(** ** Reopening *)

(** C3. Reopening a Closed defect as the same record sets status back to
    Open, increments reopenedCount by exactly 1, clears closedAt, closedBy
    and closedByName, appends the given attachments, appends exactly one
    history entry (type reopen) and exactly one comment
    "Reopened: {reason}", and returns the same id. *)
Theorem reopen_same_record env id reason atts userId userName w d :
  w_db w !! id = Some d ->
  d_status d = Closed ->
  exists w' d' h c,
    reopenDefect env id (mkReopenData false reason atts) userId userName w
    = (Ok id, w')
    /\ w_db w' !! id = Some d'
    /\ d_status d' = Open
    /\ d_reopenedCount d' = d_reopenedCount d + 1
    /\ d_closedAt d' = None
    /\ d_closedBy d' = None
    /\ d_closedByName d' = None
    /\ d_attachments d' = d_attachments d ++ default [] atts
    /\ d_history d' = d_history d ++ [h]
    /\ h_type h = "reopen"
    /\ d_comments d' = d_comments d ++ [c]
    /\ c_text c = "Reopened: " +:+ reason.
Proof.
  intros H _.
  destruct (reopenDefect_same_found env id (mkReopenData false reason atts)
              userId userName w d H eq_refl) as (w' & E & Hdb & _).
  eexists w', _, _, _. split; [exact E|].
  split; [rewrite Hdb; apply lookup_insert_eq|].
  cbn. repeat split.
  destruct atts; cbn; [reflexivity|]. symmetry. apply app_nil_r.
Qed.

Lemma reopen_same_record_witness :
  w_db (Sample.world Sample.d1closed) !! "d1" = Some Sample.d1closed
  /\ d_status Sample.d1closed = Closed
  /\ exists w' d',
       reopenDefect Sample.env "d1"
         (mkReopenData false "Leak came back" (Some ["photo-1.jpg"]))
         "user-1" "John Smith" (Sample.world Sample.d1closed) = (Ok "d1", w')
       /\ w_db w' !! "d1" = Some d'
       /\ d_status d' = Open
       /\ d_reopenedCount d' = 1
       /\ d_closedAt d' = None.
Proof.
  split; [reflexivity|]. split; [reflexivity|].
  destruct (reopen_same_record Sample.env "d1" "Leak came back"
              (Some ["photo-1.jpg"]) "user-1" "John Smith"
              (Sample.world Sample.d1closed) Sample.d1closed)
    as (w' & d' & h & c & E & Hd & Hs & Hn & Hc & _);
    [reflexivity|reflexivity|].
  exists w', d'. auto.
Defined.

(** C2. Reopening an existing defect as a new occurrence leaves the status
    of the source as it was, increments its recurrenceCount by exactly 1
    (an absent count is 0), and returns the id of a record that did not
    exist before: its parentDefectId is the source id, its status is Open,
    its description is "Recurrence of {code}: {reason}", its history and
    comments are empty, and its title, severity, asset, site, assignee,
    compliance tags and actions are those of the source. *)
Theorem reopen_as_new_occurrence env id reason atts userId userName w d :
  w_db w !! id = Some d ->
  d_id d = id ->
  (forall n, w_db w !! a_id (env_assign env (w_created w) n) = None) ->
  exists w' newId source' new,
    reopenDefect env id (mkReopenData true reason atts) userId userName w
    = (Ok newId, w')
    /\ w_db w !! newId = None
    /\ w_db w' !! id = Some source'
    /\ d_status source' = d_status d
    /\ d_recurrenceCount source' = Some (default 0 (d_recurrenceCount d) + 1)
    /\ w_db w' !! newId = Some new
    /\ d_id new = newId
    /\ d_parentDefectId new = Some id
    /\ d_status new = Open
    /\ d_description new
       = "Recurrence of " +:+ d_defectCode d +:+ ": " +:+ reason
    /\ d_history new = []
    /\ d_comments new = []
    /\ d_title new = d_title d
    /\ d_severity new = d_severity d
    /\ d_severityModel new = d_severityModel d
    /\ d_assetId new = d_assetId d
    /\ d_siteId new = d_siteId d
    /\ d_assignedToId new = d_assignedToId d
    /\ d_assignedToName new = d_assignedToName d
    /\ d_complianceTags new = d_complianceTags d
    /\ d_actions new = d_actions d.
Proof.
  intros H Hid Hfresh.
  set (data := mkReopenData true reason atts).
  pose proof (Hfresh (recurrenceInput data userId userName
                        (env_clock env (w_time w))
                        (env_clock env (S (w_time w))) d)) as Hnew.
  destruct (reopenDefect_new_found env id data userId userName w d
              H Hid eq_refl Hnew) as (w' & E & Hdb & _).
  assert (Hne : d_id (recurrenceRecord env data userId userName w d) ≠ id).
  { intros Eq. cbn in Eq. rewrite Eq in Hnew. congruence. }
  eexists w', _, _, _. split; [exact E|].
  split; [exact Hnew|].
  split; [rewrite Hdb; apply lookup_insert_eq|].
  split; [reflexivity|]. split; [reflexivity|].
  split.
  { rewrite Hdb, lookup_insert_ne by (intros Eq; apply Hne; symmetry; exact Eq).
    apply lookup_insert_eq. }
  subst id. cbn. repeat split.
Qed.

Lemma reopen_as_new_occurrence_witness :
  w_db (Sample.world Sample.d1closed) !! "d1" = Some Sample.d1closed
  /\ d_id Sample.d1closed = "d1"
  /\ exists w' source' new,
       reopenDefect Sample.env "d1"
         (mkReopenData true "Leak came back" None)
         "user-1" "John Smith" (Sample.world Sample.d1closed)
       = (Ok "new-0", w')
       /\ w_db w' !! "d1" = Some source'
       /\ d_status source' = Closed
       /\ d_recurrenceCount source' = Some 1
       /\ w_db w' !! "new-0" = Some new
       /\ d_parentDefectId new = Some "d1"
       /\ d_status new = Open
       /\ d_history new = [].
Proof.
  split; [reflexivity|]. split; [reflexivity|].
  destruct (reopen_as_new_occurrence Sample.env "d1" "Leak came back" None
              "user-1" "John Smith" (Sample.world Sample.d1closed)
              Sample.d1closed)
    as (w' & newId & source' & new & E & _ & Hs & Hst & Hrc & Hn & Hid & Hp
        & Ho & _ & Hh & _);
    [reflexivity|reflexivity|intros n; reflexivity|].
  assert (newId = "new-0") as ->.
  { assert (Hr : fst (reopenDefect Sample.env "d1"
                   (mkReopenData true "Leak came back" None)
                   "user-1" "John Smith" (Sample.world Sample.d1closed))
                 = Ok "new-0") by (vm_compute; reflexivity).
    rewrite E in Hr. cbn in Hr. congruence. }
  exists w', source', new. auto 10.
Defined.

(** ** The sync queue *)

(** The creation path of the provider records the record it creates. *)
Lemma createNewDefect_queues_creation env n w :
  exists w' new,
    createNewDefect env n w = (Ok new, w')
    /\ w_queue w'
       = w_queue w ++ [mkSyncItem "createDefect" (d_id new) (PayloadDefect new)]
    /\ defects (w_state w') = defects (w_state w) ++ [new].
Proof. eexists _, _. split; [reflexivity|]. cbn. auto. Qed.

(** C8 at the new-occurrence branch of [reopenDefect].  The record that the
    branch creates is in the table afterwards, but the only items the queue
    receives are two [updateDefect] items (the link on the new record and
    the count on the parent): no [createDefect] item records the creation,
    and the in-memory list of defects does not receive the record either. *)
Theorem reopen_new_occurrence_queues_no_creation
    env id reason atts userId userName w d :
  w_db w !! id = Some d ->
  d_id d = id ->
  (forall n, w_db w !! a_id (env_assign env (w_created w) n) = None) ->
  exists w' newId new,
    reopenDefect env id (mkReopenData true reason atts) userId userName w
    = (Ok newId, w')
    /\ w_db w !! newId = None
    /\ w_db w' !! newId = Some new
    /\ w_queue w'
       = w_queue w ++
         [mkSyncItem "updateDefect" newId (PayloadPatch (linkPatch d));
          mkSyncItem "updateDefect" id (PayloadPatch (countPatch d))]
    /\ (forall item,
           item ∈ drop (length (w_queue w)) (w_queue w') ->
           operationName item = "updateDefect")
    /\ length (defects (w_state w')) = length (defects (w_state w)).
Proof.
  intros H Hid Hfresh.
  set (data := mkReopenData true reason atts).
  pose proof (Hfresh (recurrenceInput data userId userName
                        (env_clock env (w_time w))
                        (env_clock env (S (w_time w))) d)) as Hnew.
  destruct (reopenDefect_new_found env id data userId userName w d
              H Hid eq_refl Hnew) as (w' & E & Hdb & Hq & Hds & _).
  assert (Hne : d_id (recurrenceRecord env data userId userName w d) ≠ id).
  { intros Eq. cbn in Eq. rewrite Eq in Hnew. congruence. }
  eexists w', _, _. split; [exact E|].
  split; [exact Hnew|].
  split.
  { rewrite Hdb, lookup_insert_ne by (intros Eq; apply Hne; symmetry; exact Eq).
    apply lookup_insert_eq. }
  split; [exact Hq|].
  split.
  - intros item. rewrite Hq, drop_app_length.
    rewrite !elem_of_cons, elem_of_nil.
    intros [-> | [-> | []]]; reflexivity.
  - rewrite Hds, !length_map. reflexivity.
Qed.

Lemma reopen_new_occurrence_queues_no_creation_witness :
  w_db (Sample.world Sample.d1closed) !! "d1" = Some Sample.d1closed
  /\ d_id Sample.d1closed = "d1"
  /\ exists w' newId new,
       reopenDefect Sample.env "d1"
         (mkReopenData true "Leak came back" None)
         "user-1" "John Smith" (Sample.world Sample.d1closed)
       = (Ok newId, w')
       /\ w_db w' !! newId = Some new
       /\ map operationName (w_queue w') = ["updateDefect"; "updateDefect"].
Proof.
  split; [reflexivity|]. split; [reflexivity|].
  destruct (reopen_new_occurrence_queues_no_creation Sample.env "d1"
              "Leak came back" None "user-1" "John Smith"
              (Sample.world Sample.d1closed) Sample.d1closed)
    as (w' & newId & new & E & _ & Hn & Hq & _);
    [reflexivity|reflexivity|intros n; reflexivity|].
  exists w', newId, new. rewrite Hq. auto.
Defined.

(** ** Ids that do not resolve *)

(** C9. When the id resolves to no record, [closeDefect] and
    [reopenDefect] throw 'Defect not found' before any mutation: the only
    trace is the error message in the reducer state; the table, the sync
    queue and the list of defects are unchanged and no record is created. *)
Theorem not_found_throws_before_any_mutation env id w :
  w_db w !! id = None ->
  let w' := worldAfterError "Defect not found" w in
  (forall data userId userName,
      closeDefect env id data userId userName w
      = (Throw "Defect not found", w'))
  /\ (forall data userId userName,
         reopenDefect env id data userId userName w
         = (Throw "Defect not found", w'))
  /\ w_db w' = w_db w
  /\ w_queue w' = w_queue w
  /\ w_created w' = w_created w
  /\ defects (w_state w') = defects (w_state w)
  /\ currentDefect (w_state w') = currentDefect (w_state w)
  /\ error (w_state w') = Some "Defect not found".
Proof.
  intros H w'. split; [|split].
  - intros data userId userName.
    unfold closeDefect, tryCatch, bind, getDefectById. rewrite H.
    reflexivity.
  - intros data userId userName.
    unfold reopenDefect, tryCatch, bind, getDefectById. rewrite H.
    reflexivity.
  - cbn. auto 10.
Qed.

Lemma not_found_throws_before_any_mutation_witness :
  w_db (Sample.world Sample.d1) !! "d2" = None
  /\ closeDefect Sample.env "d2" Sample.closeData "user-1" "John Smith"
                 (Sample.world Sample.d1)
     = (Throw "Defect not found",
        worldAfterError "Defect not found" (Sample.world Sample.d1))
  /\ reopenDefect Sample.env "d2" (mkReopenData true "Leak came back" None)
                  "user-1" "John Smith" (Sample.world Sample.d1)
     = (Throw "Defect not found",
        worldAfterError "Defect not found" (Sample.world Sample.d1)).
Proof.
  split; [reflexivity|].
  destruct (not_found_throws_before_any_mutation Sample.env "d2"
              (Sample.world Sample.d1)) as (Hc & Hr & _); [reflexivity|].
  split; [apply Hc | apply Hr].
Defined.

(** ** Loading one defect *)

(** C10. [loadDefect] looks the id up first; when that finds nothing and
    the id starts with "DEF-" it looks the id up as a code; the current
    defect becomes the record found, and it becomes null only when the
    lookup by id fails and the lookup by code, if it is made, fails too. *)
Theorem loadDefect_by_id_then_by_code id w :
  exists w',
    loadDefect id w = (Ok tt, w')
    /\ w_db w' = w_db w
    /\ w_queue w' = w_queue w
    /\ currentDefect (w_state w')
       = match w_db w !! id with
         | Some d => Some d
         | None =>
             if String.prefix "DEF-" id then findByCode id (w_db w) else None
         end
    /\ (currentDefect (w_state w') = None
        <-> w_db w !! id = None
            /\ (String.prefix "DEF-" id = true
                -> findByCode id (w_db w) = None)).
Proof.
  eexists. split; [apply loadDefect_run|].
  cbn. unfold resolveDefect. repeat split.
  - destruct (w_db w !! id); [discriminate|reflexivity].
  - destruct (w_db w !! id); [discriminate|].
    destruct (String.prefix "DEF-" id); [intros _; assumption|discriminate].
  - intros [-> Hcode]. destruct (String.prefix "DEF-" id); auto.
Qed.

Example loadDefect_by_code :
  fst (loadDefect "DEF-000001" (Sample.world Sample.d1)) = Ok tt
  /\ currentDefect
       (w_state (snd (loadDefect "DEF-000001"
                                 (Sample.world Sample.d1))))
     = Some Sample.d1.
Proof. split; reflexivity. Qed.

(** ** Status validation and bulk update *)

Module AssetsFacts.
Import Assets.

Section BulkFacts.
Context (validate : option OperationalStatus -> option LifecycleStatus
                    -> Validation).

(** Whether an id fails depends on the store only through the ids that
    resolve. *)
Lemma itemFails_same_ids (s1 s2 : gmap string Asset) updates i :
  (s1 !! i = None <-> s2 !! i = None) ->
  itemFails validate s1 updates i = itemFails validate s2 updates i.
Proof.
  unfold itemFails. intros Hiff.
  destruct (s1 !! i) eqn:E1, (s2 !! i) eqn:E2; try reflexivity.
  - destruct Hiff as [_ Hback]. specialize (Hback eq_refl). discriminate.
  - destruct Hiff as [Hfwd _]. specialize (Hfwd eq_refl). discriminate.
Qed.

Lemma bulkLoop_counts ids :
  forall updates (store0 store : gmap string Asset) acc,
  (forall j, store !! j = None <-> store0 !! j = None) ->
  let out := bulkLoop validate ids updates store acc in
  let failed := List.filter (itemFails validate store0 updates) ids in
  updated (fst out) + length failed = updated acc + length ids
  /\ (exists errs, errors (fst out) = errors acc ++ errs
                   /\ map errorId errs = failed)
  /\ (forall j, snd out !! j = None <-> store0 !! j = None).
Proof.
  induction ids as [|i rest IH]; intros updates store0 store acc Hids.
  - cbn. split; [lia|]. split; [|exact Hids].
    exists []. split; [symmetry; apply app_nil_r | reflexivity].
  - cbn [bulkLoop List.filter].
    rewrite <- (itemFails_same_ids store store0 updates i (Hids i)).
    destruct (store !! i) as [a|] eqn:Ei.
    + destruct (resolveUpdates validate updates) as [why|u] eqn:Er.
      * assert (Hf : itemFails validate store updates i = true)
          by (unfold itemFails; rewrite Ei, Er; reflexivity).
        rewrite Hf.
        specialize (IH updates store0 store
                      (mkBulkResult (updated acc)
                         (errors acc ++ [mkBulkError i why])) Hids).
        cbn in IH. destruct IH as (Hn & (errs & He & Hm) & Hk).
        cbn. split; [lia|]. split; [|exact Hk].
        exists (mkBulkError i why :: errs). split.
        -- rewrite He, <- app_assoc. reflexivity.
        -- cbn. rewrite Hm. reflexivity.
      * assert (Hf : itemFails validate store updates i = false)
          by (unfold itemFails; rewrite Ei, Er; reflexivity).
        rewrite Hf.
        assert (Hids' : forall j, <[i:=applyAssetPatch a u]> store !! j = None
                                  <-> store0 !! j = None).
        { intros j. rewrite <- Hids. destruct (decide (i = j)) as [->|Hne].
          - rewrite lookup_insert_eq, Ei. split; discriminate.
          - rewrite lookup_insert_ne by exact Hne. reflexivity. }
        specialize (IH updates store0 (<[i:=applyAssetPatch a u]> store)
                      (mkBulkResult (S (updated acc)) (errors acc)) Hids').
        cbn in IH. destruct IH as (Hn & Herrs & Hk).
        cbn. split; [lia|]. split; [exact Herrs | exact Hk].
    + assert (Hf : itemFails validate store updates i = true)
        by (unfold itemFails; rewrite Ei; reflexivity).
      rewrite Hf.
      specialize (IH updates store0 store
                    (mkBulkResult (updated acc)
                       (errors acc ++ [mkBulkError i "Asset not found"])) Hids).
      cbn in IH. destruct IH as (Hn & (errs & He & Hm) & Hk).
      cbn. split; [lia|]. split; [|exact Hk].
      exists (mkBulkError i "Asset not found" :: errs). split.
      * rewrite He, <- app_assoc. reflexivity.
      * cbn. rewrite Hm. reflexivity.
Qed.

End BulkFacts.

(** An id fails exactly when it resolves to no asset, or when both statuses
    are being changed to a pair that the validator finds invalid and offers
    no correction for. *)
Lemma itemFails_iff validate (store : gmap string Asset) updates i :
  itemFails validate store updates i = true
  <-> store !! i = None
      \/ exists op lc,
           u_operationalStatus updates = Some op
           /\ u_lifecycleStatus updates = Some lc
           /\ isValid (validate (Some op) (Some lc)) = false
           /\ autoCorrect (validate (Some op) (Some lc)) = None.
Proof.
  unfold itemFails, resolveUpdates.
  destruct (store !! i) as [a|]; [|split; auto].
  destruct (u_operationalStatus updates) as [op|],
           (u_lifecycleStatus updates) as [lc|];
    try (split; [discriminate|];
         intros [? | (? & ? & ? & ? & _)]; discriminate).
  destruct (autoCorrect (validate (Some op) (Some lc))) as [corr|] eqn:Ea.
  - split; [discriminate|].
    intros [? | (op' & lc' & [= <-] & [= <-] & _ & Hnone)]; [discriminate|].
    rewrite Ea in Hnone. discriminate.
  - destruct (isValid (validate (Some op) (Some lc))) eqn:Ev.
    + split; [discriminate|].
      intros [? | (op' & lc' & [= <-] & [= <-] & Hinv & _)]; [discriminate|].
      rewrite Ev in Hinv. discriminate.
    + split; [|reflexivity]. intros _. right. exists op, lc. auto.
Qed.

(** C6. Of N ids of which K fail (the id resolves to no asset, or the
    update is an invalid combination that cannot be auto-corrected), the
    coordinator returns updated = N - K and K errors, one per failing id
    and in input order; it always returns a result (a failing item never
    aborts the batch), and it neither adds nor removes an asset. *)
Theorem bulk_update_partial_failure validate ids updates
    (store : gmap string Asset) :
  let result := fst (bulkUpdateAssets validate ids updates store) in
  let store' := snd (bulkUpdateAssets validate ids updates store) in
  let failed := List.filter (itemFails validate store updates) ids in
  updated result = length ids - length failed
  /\ length (errors result) = length failed
  /\ map errorId (errors result) = failed
  /\ updated result + length (errors result) = length ids
  /\ (forall i, store' !! i = None <-> store !! i = None)
  /\ (forall i,
         itemFails validate store updates i = true
         <-> store !! i = None
             \/ exists op lc,
                  u_operationalStatus updates = Some op
                  /\ u_lifecycleStatus updates = Some lc
                  /\ isValid (validate (Some op) (Some lc)) = false
                  /\ autoCorrect (validate (Some op) (Some lc)) = None).
Proof.
  intros result store' failed.
  destruct (bulkLoop_counts validate ids updates store store
              (mkBulkResult 0 []) (fun j => iff_refl _))
    as (Hn & (errs & He & Hm) & Hk).
  fold (bulkUpdateAssets validate ids updates store) in Hn, He, Hk.
  fold result in Hn, He. fold store' in Hk. fold failed in Hn, Hm.
  cbn in Hn, He. subst errs.
  assert (Hlen : length (errors result) = length failed)
    by (rewrite <- Hm, length_map; reflexivity).
  split; [lia|]. split; [exact Hlen|]. split; [exact Hm|].
  split; [lia|]. split; [exact Hk|].
  intros i. apply itemFails_iff.
Qed.

(** C7. On every pair the validator answers as the table does; whenever it
    answers invalid together with an auto-correction, the corrected pair is
    valid (and applying the correction twice is applying it once); a
    Disposed asset with an operational status other than OffHired or
    Archived is invalid and auto-correctable to Archived; Quarantined with
    Active is valid. *)
Theorem validation_follows_table_and_corrections_are_valid :
  (forall op lc,
      isValid (validateStatusCombination (Some op) (Some lc))
      = verdictIsValid (validityTable op lc))
  /\ (forall op lc corr,
         isValid (validateStatusCombination (Some op) (Some lc)) = false ->
         autoCorrect (validateStatusCombination (Some op) (Some lc))
         = Some corr ->
         validateStatusCombination
           (Some (fst (applyAutoCorrect corr (op, lc))))
           (Some (snd (applyAutoCorrect corr (op, lc))))
         = mkValidation true None None)
  /\ (forall corr pair,
         applyAutoCorrect corr (applyAutoCorrect corr pair)
         = applyAutoCorrect corr pair)
  /\ (forall op,
         op ≠ OffHired -> op ≠ Archived ->
         isValid (validateStatusCombination (Some op) (Some Disposed)) = false
         /\ autoCorrect (validateStatusCombination (Some op) (Some Disposed))
            = Some (mkAssetPatch (Some Archived) None))
  /\ (forall op,
         op = OffHired \/ op = Archived ->
         isValid (validateStatusCombination (Some op) (Some Disposed)) = true)
  /\ isValid (validateStatusCombination (Some Quarantined) (Some Active))
     = true.
Proof.
  split; [|split; [|split; [|split; [|split]]]].
  - intros op lc. unfold validateStatusCombination.
    destruct (validityTable op lc); reflexivity.
  - intros op lc corr. destruct op, lc; cbn; try discriminate;
      intros _ [= <-]; reflexivity.
  - intros [[o|] [l|]] [op lc]; reflexivity.
  - intros op H1 H2. destruct op; try contradiction; split; reflexivity.
  - intros op [-> | ->]; reflexivity.
  - reflexivity.
Qed.

Lemma validation_follows_table_and_corrections_are_valid_witness :
  isValid (validateStatusCombination (Some InUse) (Some Disposed)) = false
  /\ autoCorrect (validateStatusCombination (Some InUse) (Some Disposed))
     = Some (mkAssetPatch (Some Archived) None)
  /\ validateStatusCombination (Some Archived) (Some Disposed)
     = mkValidation true None None.
Proof.
  destruct validation_follows_table_and_corrections_are_valid
    as (_ & Hfix & _).
  split; [reflexivity|]. split; [reflexivity|].
  apply (Hfix InUse Disposed (mkAssetPatch (Some Archived) None));
    reflexivity.
Defined.

(** Three ids, one of which resolves to nothing. *)
Example bulk_update_one_missing :
  fst (bulkUpdateAssets validateStatusCombination ["a1"; "zz"; "a2"]
         (mkAssetPatch (Some OffHired) None) Sample.sampleStore)
  = mkBulkResult 2 [mkBulkError "zz" "Asset not found"].
Proof. reflexivity. Qed.

(** The handler rejects Disposed with InUse before any asset is touched. *)
Example handleBulkUpdate_rejects_invalid_pair :
  handleBulkUpdate
    (mkPage ["a1"; "a2"] (Some InUse) (Some Disposed) Sample.sampleStore [])
  = mkPage ["a1"; "a2"] (Some InUse) (Some Disposed) Sample.sampleStore
      [("Disposed assets must be Off Hired or Archived", ToastError)].
Proof. reflexivity. Qed.

Example handleBulkUpdate_reports_partial_failure :
  toasts (handleBulkUpdate
            (mkPage ["a1"; "zz"] (Some Quarantined) (Some Active)
                    Sample.sampleStore []))
  = [("Updated 1 assets. 1 failed.", ToastWarning)].
Proof. reflexivity. Qed.
End AssetsFacts.

(** * Further properties *)

(** ** More on the provider's operations *)

Lemma closeDefect_missing env id data userId userName w :
  w_db w !! id = None ->
  closeDefect env id data userId userName w
  = (Throw "Defect not found", worldAfterError "Defect not found" w).
Proof.
  intros H. unfold closeDefect, tryCatch, bind, getDefectById. rewrite H.
  reflexivity.
Qed.

Lemma reopenDefect_missing env id data userId userName w :
  w_db w !! id = None ->
  reopenDefect env id data userId userName w
  = (Throw "Defect not found", worldAfterError "Defect not found" w).
Proof.
  intros H. unfold reopenDefect, tryCatch, bind, getDefectById. rewrite H.
  reflexivity.
Qed.

(** X1. [closeDefect] touches the record it is given and no other: every
    other id resolves afterwards to what it resolved to before, and no id is
    added to or removed from the table, whether the call succeeds or
    throws. *)
Theorem closeDefect_touches_one_record env id data userId userName w :
  let w' := snd (closeDefect env id data userId userName w) in
  (forall other, other ≠ id -> w_db w' !! other = w_db w !! other)
  /\ (forall k, w_db w' !! k = None <-> w_db w !! k = None)
  /\ w_created w' = w_created w.
Proof.
  destruct (w_db w !! id) as [d|] eqn:H.
  - destruct (closeDefect_found env id data userId userName w d H)
      as (w' & E & Hdb & _ & _ & _ & Hc).
    rewrite E. cbn [snd]. rewrite Hdb. split; [|split; [|exact Hc]].
    + intros other Hne. apply lookup_insert_ne. congruence.
    + intros k. destruct (decide (id = k)) as [<-|Hne].
      * rewrite lookup_insert_eq, H. split; discriminate.
      * rewrite lookup_insert_ne by exact Hne. reflexivity.
  - rewrite closeDefect_missing by exact H. cbn. auto.
Qed.

(** X2. [reopenDefect] looks at no status either: reopening as the same
    record succeeds on a defect of any status, also one that was never
    closed, sets it Open and counts one more reopening.  Only the page
    restricts it, and its two gates exclude each other. *)
Theorem reopenDefect_has_no_status_guard
    env id reason atts userId userName w d :
  w_db w !! id = Some d ->
  (exists w' d',
      reopenDefect env id (mkReopenData false reason atts) userId userName w
      = (Ok id, w')
      /\ w_db w' !! id = Some d'
      /\ d_status d' = Open
      /\ d_reopenedCount d' = d_reopenedCount d + 1)
  /\ (forall role, d_status d ≠ Closed -> canReopen role d = false)
  /\ (forall r1 r2, canClose r1 d && canReopen r2 d = false).
Proof.
  intros H. split; [|split].
  - destruct (reopenDefect_same_found env id (mkReopenData false reason atts)
                userId userName w d H eq_refl) as (w' & E & Hdb & _).
    eexists w', _. split; [exact E|].
    split; [rewrite Hdb; apply lookup_insert_eq|]. cbn. auto.
  - intros role Hs. unfold canReopen.
    rewrite bool_decide_eq_false_2 by exact Hs. apply andb_false_r.
  - intros r1 r2. unfold canClose, canReopen.
    destruct (decide (d_status d = Closed)) as [E|E].
    + rewrite (bool_decide_eq_false_2 (d_status d ≠ Closed)) by tauto.
      rewrite andb_false_r. reflexivity.
    + rewrite (bool_decide_eq_false_2 (d_status d = Closed)) by exact E.
      rewrite !andb_false_r. reflexivity.
Qed.

Lemma reopenDefect_has_no_status_guard_witness :
  w_db (Sample.world Sample.d1) !! "d1" = Some Sample.d1
  /\ d_status Sample.d1 = Open
  /\ exists w' d',
       reopenDefect Sample.env "d1" (mkReopenData false "Not fixed" None)
                    "user-1" "John Smith" (Sample.world Sample.d1)
       = (Ok "d1", w')
       /\ w_db w' !! "d1" = Some d'
       /\ d_reopenedCount d' = 1.
Proof.
  split; [reflexivity|]. split; [reflexivity|].
  destruct (reopenDefect_has_no_status_guard Sample.env "d1" "Not fixed" None
              "user-1" "John Smith" (Sample.world Sample.d1) Sample.d1)
    as ((w' & d' & E & Hd & _ & Hn) & _); [reflexivity|].
  exists w', d'. auto.
Defined.

(** X3. Closing a defect and then reopening it as the same record gives an
    Open defect with closedAt, closedBy and closedByName cleared and one
    more reopening, but the actionTaken of the closure stays on the record;
    comments and history keep the whole trail: the close comment then the
    reopen comment, the close entries then the reopen entry, and the
    attachments of both steps in order. *)
Theorem close_then_reopen_same_record
    env id data reason atts userId userName w d :
  w_db w !! id = Some d ->
  exists w1 w2 d2 c1 c2 h,
    closeDefect env id data userId userName w = (Ok tt, w1)
    /\ reopenDefect env id (mkReopenData false reason atts) userId userName w1
       = (Ok id, w2)
    /\ w_db w2 !! id = Some d2
    /\ d_status d2 = Open
    /\ d_closedAt d2 = None
    /\ d_closedBy d2 = None
    /\ d_closedByName d2 = None
    /\ d_actionTaken d2 = Some (actionTaken data)
    /\ d_reopenedCount d2 = d_reopenedCount d + 1
    /\ d_comments d2 = d_comments d ++ [c1; c2]
    /\ c_text c1 = closeSummary data
    /\ c_text c2 = "Reopened: " +:+ reason
    /\ d_history d2
       = d_history d
         ++ closeEntries data userId userName (env_clock env (w_time w)) d
         ++ [h]
    /\ h_type h = "reopen"
    /\ d_attachments d2
       = d_attachments d ++ attachments data ++ default [] atts
    /\ map operationName (drop (length (w_queue w)) (w_queue w2))
       = ["updateDefect"; "closeDefect"; "updateDefect"; "reopenDefect"].
Proof.
  intros H.
  destruct (closeDefect_found env id data userId userName w d H)
    as (w1 & E1 & Hdb1 & Hq1 & _).
  assert (H1 : w_db w1 !! id
               = Some (closedRecord data userId userName
                         (env_clock env (w_time w))
                         (env_uuid env (w_uuids w)) d))
    by (rewrite Hdb1; apply lookup_insert_eq).
  destruct (reopenDefect_same_found env id (mkReopenData false reason atts)
              userId userName w1 _ H1 eq_refl) as (w2 & E2 & Hdb2 & Hq2 & _).
  eexists w1, w2, _, _, _, _. split; [exact E1|]. split; [exact E2|].
  split; [rewrite Hdb2; apply lookup_insert_eq|].
  cbn. repeat split.
  - rewrite <- app_assoc. reflexivity.
  - reflexivity.
  - reflexivity.
  - rewrite <- app_assoc. reflexivity.
  - reflexivity.
  - destruct atts; cbn; rewrite <- ?app_assoc, ?app_nil_r; reflexivity.
  - rewrite Hq2, Hq1, <- app_assoc, drop_app_length. reflexivity.
Qed.

Lemma close_then_reopen_same_record_witness :
  w_db (Sample.world Sample.d1) !! "d1" = Some Sample.d1
  /\ exists w1 w2 d2,
       closeDefect Sample.env "d1" Sample.plainClose "user-1" "John Smith"
                   (Sample.world Sample.d1) = (Ok tt, w1)
       /\ reopenDefect Sample.env "d1" (mkReopenData false "Seep is back" None)
                       "user-1" "John Smith" w1 = (Ok "d1", w2)
       /\ w_db w2 !! "d1" = Some d2
       /\ d_status d2 = Open
       /\ d_actionTaken d2 = Some "Tightened fitting".
Proof.
  split; [reflexivity|].
  destruct (close_then_reopen_same_record Sample.env "d1" Sample.plainClose
              "Seep is back" None "user-1" "John Smith"
              (Sample.world Sample.d1) Sample.d1)
    as (w1 & w2 & d2 & c1 & c2 & h & E1 & E2 & Hd & Hs & _ & _ & _ & Ha & _);
    [reflexivity|].
  exists w1, w2, d2. auto.
Defined.

(** X4. [reopenDefect] changes the record it is given and, for a new
    occurrence, the record it creates; every other id resolves afterwards
    to what it resolved to before. *)
Theorem reopenDefect_touches_source_and_child
    env id data userId userName w d :
  w_db w !! id = Some d ->
  d_id d = id ->
  (forall n, w_db w !! a_id (env_assign env (w_created w) n) = None) ->
  exists w' result,
    reopenDefect env id data userId userName w = (Ok result, w')
    /\ (isNewOccurrence data = false -> result = id)
    /\ (isNewOccurrence data = true -> w_db w !! result = None)
    /\ (forall other, other ≠ id -> other ≠ result ->
                      w_db w' !! other = w_db w !! other)
    /\ (forall k, w_db w' !! k = None
                  <-> w_db w !! k = None /\ k ≠ result).
Proof.
  intros H Hid Hfresh. destruct (isNewOccurrence data) eqn:Hocc.
  - pose proof (Hfresh (recurrenceInput data userId userName
                          (env_clock env (w_time w))
                          (env_clock env (S (w_time w))) d)) as Hnew.
    destruct (reopenDefect_new_found env id data userId userName w d
                H Hid Hocc Hnew) as (w' & E & Hdb & _).
    eexists w', _. split; [exact E|].
    split; [discriminate|]. split; [intros _; exact Hnew|].
    split.
    + intros other H1 H2. rewrite Hdb.
      rewrite !lookup_insert_ne by congruence. reflexivity.
    + intros k. rewrite Hdb.
      destruct (decide (id = k)) as [<-|N1].
      { rewrite lookup_insert_eq, H. split; [discriminate|intros [? _]].
        discriminate. }
      rewrite lookup_insert_ne by exact N1.
      match goal with |- <[?r := _]> _ !! _ = _ <-> _ =>
        destruct (decide (r = k)) as [<-|N2] end.
      { rewrite lookup_insert_eq. split; [discriminate|intros [_ ?]].
        contradiction. }
      rewrite lookup_insert_ne by exact N2. split; [|tauto].
      intros ?. split; [assumption|congruence].
  - destruct (reopenDefect_same_found env id data userId userName w d
                H Hocc) as (w' & E & Hdb & _).
    eexists w', _. split; [exact E|].
    split; [reflexivity|]. split; [discriminate|].
    split.
    + intros other H1 _. rewrite Hdb. apply lookup_insert_ne. congruence.
    + intros k. rewrite Hdb.
      destruct (decide (id = k)) as [<-|N1].
      { rewrite lookup_insert_eq, H. split; [discriminate|intros [? _]].
        discriminate. }
      rewrite lookup_insert_ne by exact N1. split; [|tauto].
      intros ?. split; [assumption|congruence].
Qed.

Lemma reopenDefect_touches_source_and_child_witness :
  w_db (Sample.world Sample.d1closed) !! "d1" = Some Sample.d1closed
  /\ exists w',
       reopenDefect Sample.env "d1" (mkReopenData true "Leak came back" None)
                    "user-1" "John Smith" (Sample.world Sample.d1closed)
       = (Ok "new-0", w')
       /\ w_db w' !! "d7" = None.
Proof.
  split; [reflexivity|].
  destruct (reopenDefect_touches_source_and_child Sample.env "d1"
              (mkReopenData true "Leak came back" None)
              "user-1" "John Smith" (Sample.world Sample.d1closed)
              Sample.d1closed)
    as (w' & result & E & _ & _ & Hother & _);
    [reflexivity|reflexivity|intros n; reflexivity|].
  assert (result = "new-0") as ->.
  { assert (Hr : fst (reopenDefect Sample.env "d1"
                   (mkReopenData true "Leak came back" None)
                   "user-1" "John Smith" (Sample.world Sample.d1closed))
                 = Ok "new-0") by (vm_compute; reflexivity).
    rewrite E in Hr. cbn in Hr. congruence. }
  exists w'. split; [exact E|].
  rewrite Hother by discriminate. reflexivity.
Defined.

(** X5. Two reopenings of the same defect as new occurrences count two
    recurrences on it and create two distinct records, each linked to it
    by parentDefectId and each starting with recurrenceCount 0. *)
Theorem two_new_occurrences_count_twice
    env id data1 data2 userId userName w d :
  w_db w !! id = Some d ->
  d_id d = id ->
  isNewOccurrence data1 = true ->
  isNewOccurrence data2 = true ->
  (forall n, w_db w !! a_id (env_assign env (w_created w) n) = None) ->
  (forall n m, a_id (env_assign env (S (w_created w)) n)
               ≠ a_id (env_assign env (w_created w) m)) ->
  (forall n, w_db w !! a_id (env_assign env (S (w_created w)) n) = None) ->
  exists w1 w2 id1 id2 source c1 c2,
    reopenDefect env id data1 userId userName w = (Ok id1, w1)
    /\ reopenDefect env id data2 userId userName w1 = (Ok id2, w2)
    /\ id1 ≠ id2
    /\ w_db w2 !! id = Some source
    /\ d_recurrenceCount source = Some (default 0 (d_recurrenceCount d) + 2)
    /\ d_status source = d_status d
    /\ w_db w2 !! id1 = Some c1
    /\ w_db w2 !! id2 = Some c2
    /\ d_parentDefectId c1 = Some id
    /\ d_parentDefectId c2 = Some id
    /\ d_recurrenceCount c1 = Some 0
    /\ d_recurrenceCount c2 = Some 0.
Proof.
  intros H Hid Ho1 Ho2 Hf1 Hdiff Hf2.
  pose proof (Hf1 (recurrenceInput data1 userId userName
                     (env_clock env (w_time w))
                     (env_clock env (S (w_time w))) d)) as Hnew1.
  destruct (reopenDefect_new_found env id data1 userId userName w d
              H Hid Ho1 Hnew1)
    as (w1 & E1 & Hdb1 & _ & _ & Ht1 & _ & Hc1).
  set (d1 := applyPatch d (countPatch d)) in *.
  set (c1 := recurrenceRecord env data1 userId userName w d) in *.
  change (w_db w !! d_id c1 = None) in Hnew1.
  assert (N1 : d_id c1 ≠ id) by (intros Eq; rewrite Eq in Hnew1; congruence).
  assert (H1 : w_db w1 !! id = Some d1)
    by (rewrite Hdb1; apply lookup_insert_eq).
  set (n2 := recurrenceInput data2 userId userName
               (env_clock env (w_time w1))
               (env_clock env (S (w_time w1))) d1).
  assert (Hnew2 : w_db w1 !! d_id (recurrenceRecord env data2 userId userName
                                     w1 d1) = None).
  { cbn [recurrenceRecord d_id applyPatch completeDefect]. fold n2.
    rewrite Hc1, Hdb1.
    rewrite lookup_insert_ne
      by (intros Eq; pose proof (Hf2 n2) as F; rewrite <- Eq in F; congruence).
    rewrite lookup_insert_ne
      by (intros Eq; eapply (Hdiff n2); symmetry; exact Eq).
    apply Hf2. }
  destruct (reopenDefect_new_found env id data2 userId userName w1 d1
              H1 Hid Ho2 Hnew2) as (w2 & E2 & Hdb2 & _).
  set (c2 := recurrenceRecord env data2 userId userName w1 d1) in *.
  assert (N2 : d_id c2 ≠ id) by (intros Eq; rewrite Eq in Hnew2; congruence).
  assert (N12 : d_id c1 ≠ d_id c2).
  { intros Eq. rewrite <- Eq, Hdb1 in Hnew2.
    rewrite lookup_insert_ne in Hnew2 by congruence.
    rewrite lookup_insert_eq in Hnew2. discriminate. }
  exists w1, w2, (d_id c1), (d_id c2), (applyPatch d1 (countPatch d1)), c1, c2.
  split; [exact E1|]. split; [exact E2|]. split; [exact N12|].
  split; [rewrite Hdb2; apply lookup_insert_eq|].
  split.
  { cbn. f_equal. destruct (d_recurrenceCount d); cbn; lia. }
  split; [reflexivity|].
  split.
  { rewrite Hdb2, !lookup_insert_ne, Hdb1 by congruence.
    rewrite lookup_insert_ne by congruence. apply lookup_insert_eq. }
  split.
  { rewrite Hdb2, lookup_insert_ne by congruence. apply lookup_insert_eq. }
  subst id. repeat split.
Qed.

Lemma two_new_occurrences_count_twice_witness :
  w_db (Sample.world Sample.d1closed) !! "d1" = Some Sample.d1closed
  /\ exists w1 w2 id1 id2 source,
       reopenDefect Sample.env "d1" (mkReopenData true "Leak came back" None)
                    "user-1" "John Smith" (Sample.world Sample.d1closed)
       = (Ok id1, w1)
       /\ reopenDefect Sample.env "d1" (mkReopenData true "And again" None)
                       "user-1" "John Smith" w1
          = (Ok id2, w2)
       /\ id1 ≠ id2
       /\ w_db w2 !! "d1" = Some source
       /\ d_recurrenceCount source = Some 2.
Proof.
  split; [reflexivity|].
  destruct (two_new_occurrences_count_twice Sample.env "d1"
              (mkReopenData true "Leak came back" None)
              (mkReopenData true "And again" None)
              "user-1" "John Smith" (Sample.world Sample.d1closed)
              Sample.d1closed)
    as (w1 & w2 & id1 & id2 & source & c1 & c2 & E1 & E2 & N & Hs & Hc & _);
    [reflexivity|reflexivity|reflexivity|reflexivity
    |intros n; reflexivity
    |intros n m; vm_compute; discriminate
    |intros n; reflexivity|].
  exists w1, w2, id1, id2, source.
  split; [exact E1|]. split; [exact E2|]. split; [exact N|].
  split; [exact Hs|exact Hc].
Defined.

(** ** The reducer *)

(** X6. [UPDATE_DEFECT] never changes which defects are listed: the list
    keeps its length and its ids, every defect with another id stays as it
    was, and when no listed defect has the id of the payload the list is
    unchanged (the payload is not added). *)
Theorem reducer_update_keeps_ids state p :
  let state' := defectsReducer state (UPDATE_DEFECT p) in
  map d_id (defects state') = map d_id (defects state)
  /\ length (defects state') = length (defects state)
  /\ (forall d, In d (defects state) -> d_id d ≠ d_id p ->
                In d (defects state'))
  /\ (forall d, In d (defects state') -> d = p \/ In d (defects state))
  /\ ((forall d, In d (defects state) -> d_id d ≠ d_id p) ->
      defects state' = defects state).
Proof.
  cbn. induction (defects state) as [|x l IH]; cbn.
  - repeat split; auto; intros d [].
  - destruct IH as (Hids & Hlen & Hkeep & Hfrom & Hnone).
    split; [|split; [|split; [|split]]].
    + rewrite Hids. case_bool_decide; congruence.
    + rewrite Hlen. reflexivity.
    + intros d [<-|Hin] Hne.
      * left. rewrite bool_decide_eq_false_2 by exact Hne. reflexivity.
      * right. apply Hkeep; assumption.
    + intros d [<-|Hin].
      * case_bool_decide; auto.
      * destruct (Hfrom d Hin); auto.
    + intros Hall. rewrite Hnone by (intros d Hd; apply Hall; right; exact Hd).
      rewrite bool_decide_eq_false_2 by (apply Hall; left; reflexivity).
      reflexivity.
Qed.

(** X7. After [REMOVE_DEFECT] no listed defect has the removed id and the
    current defect does not have it either; the defects with other ids are
    kept, and removing the same id again changes nothing. *)
Theorem reducer_remove_forgets_id state id :
  let state' := defectsReducer state (REMOVE_DEFECT id) in
  (forall d, In d (defects state') <-> In d (defects state) /\ d_id d ≠ id)
  /\ currentHasId (currentDefect state') id = false
  /\ (currentHasId (currentDefect state) id = false ->
      currentDefect state' = currentDefect state)
  /\ defectsReducer state' (REMOVE_DEFECT id) = state'.
Proof.
  cbn. split; [|split; [|split]].
  - intros d. rewrite <- !list_elem_of_In, list_elem_of_filter. tauto.
  - destruct (currentHasId (currentDefect state) id) eqn:E; [reflexivity|].
    exact E.
  - intros ->. reflexivity.
  - f_equal.
    + rewrite list_filter_filter. apply list_filter_iff. tauto.
    + destruct (currentHasId (currentDefect state) id) eqn:E; cbn;
        [reflexivity|]. rewrite E. reflexivity.
Qed.

(** ** Creating, editing, deleting, commenting *)

(** X8. [createNewDefect] returns the record it created, appends exactly
    that record to the list of defects, queues exactly one createDefect item
    that carries it under its id, and leaves syncQueueCount equal to the
    length of the queue. *)
Theorem createNewDefect_lists_and_queues env n w :
  exists w' new,
    createNewDefect env n w = (Ok new, w')
    /\ w_db w' !! d_id new = Some new
    /\ defects (w_state w') = defects (w_state w) ++ [new]
    /\ w_queue w'
       = w_queue w ++ [mkSyncItem "createDefect" (d_id new) (PayloadDefect new)]
    /\ syncQueueCount (w_state w') = length (w_queue w')
    /\ (forall k, k ≠ d_id new -> w_db w' !! k = w_db w !! k).
Proof.
  eexists _, _. split; [reflexivity|]. cbn.
  split; [apply lookup_insert_eq|]. split; [reflexivity|].
  split; [reflexivity|]. split; [reflexivity|].
  intros k Hk. apply lookup_insert_ne. congruence.
Qed.

(** X9. An update of an id that resolves to nothing throws 'Defect not
    found': the message is recorded in the reducer state, and nothing is
    stored, listed or queued for it. *)
Theorem updateDefectData_missing_queues_nothing env id updates w :
  w_db w !! id = None ->
  exists w',
    updateDefectData env id updates w = (Throw "Defect not found", w')
    /\ w_db w' = w_db w
    /\ w_queue w' = w_queue w
    /\ defects (w_state w') = defects (w_state w)
    /\ syncQueueCount (w_state w') = syncQueueCount (w_state w)
    /\ error (w_state w') = Some "Defect not found".
Proof.
  intros H. unfold updateDefectData, tryCatch, bind, updateDefect.
  rewrite H. eexists. split; [reflexivity|]. cbn. auto 10.
Qed.

Lemma updateDefectData_missing_queues_nothing_witness :
  w_db (Sample.world Sample.d1) !! "d9" = None
  /\ exists w',
       updateDefectData Sample.env "d9" emptyPatch (Sample.world Sample.d1)
       = (Throw "Defect not found", w')
       /\ w_queue w' = [].
Proof.
  split; [reflexivity|].
  destruct (updateDefectData_missing_queues_nothing Sample.env "d9" emptyPatch
              (Sample.world Sample.d1)) as (w' & E & _ & Hq & _);
    [reflexivity|].
  exists w'. auto.
Defined.

(** X10. [deleteDefectData] removes the record from the table and from the
    list, clears the current defect when it is the deleted one, and queues
    one deleteDefect item; it does so without asking whether the id
    resolves, and it touches no other record: the recurrences of a deleted
    defect keep their parentDefectId. *)
Theorem deleteDefectData_removes_without_cascade env id w :
  exists w',
    deleteDefectData env id w = (Ok tt, w')
    /\ w_db w' !! id = None
    /\ (forall k, k ≠ id -> w_db w' !! k = w_db w !! k)
    /\ (forall k child,
           w_db w !! k = Some child -> k ≠ id ->
           d_parentDefectId child = Some id ->
           exists child', w_db w' !! k = Some child'
                          /\ d_parentDefectId child' = Some id)
    /\ (forall d, In d (defects (w_state w'))
                  <-> In d (defects (w_state w)) /\ d_id d ≠ id)
    /\ currentHasId (currentDefect (w_state w')) id = false
    /\ w_queue w' = w_queue w ++ [mkSyncItem "deleteDefect" id (PayloadId id)].
Proof.
  eexists. split; [reflexivity|]. cbn.
  split; [apply lookup_delete_eq|].
  split; [intros k Hk; apply lookup_delete_ne; congruence|].
  split.
  { intros k child Hc Hk Hp. exists child. split; [|exact Hp].
    rewrite lookup_delete_ne by congruence. exact Hc. }
  split.
  { intros d. rewrite <- !list_elem_of_In, list_elem_of_filter. tauto. }
  split; [|reflexivity].
  destruct (currentHasId (currentDefect (w_state w)) id) eqn:E;
    [reflexivity|exact E].
Qed.

(** X11. A comment added through [addDefectComment] is never queued for
    sync: the queue is the same after the call, whether the id resolves or
    not.  When it resolves, the comment is the last of the record, the
    current defect is reloaded to the stored record and the list of defects
    to the whole table. *)
Theorem addDefectComment_queues_nothing env id comment w :
  w_queue (snd (addDefectComment env id comment w)) = w_queue w
  /\ (forall d,
         w_db w !! id = Some d ->
         exists w' d' c,
           addDefectComment env id comment w = (Ok tt, w')
           /\ w_db w' !! id = Some d'
           /\ d_comments d' = d_comments d ++ [c]
           /\ c_text c = nc_text comment
           /\ currentDefect (w_state w') = Some d'
           /\ defects (w_state w') = snd <$> map_to_list (w_db w'))
  /\ (w_db w !! id = None ->
      fst (addDefectComment env id comment w) = Throw "Defect not found").
Proof.
  split; [|split].
  - destruct (w_db w !! id) as [d|] eqn:H.
    + destruct (addDefectComment_found env id comment w d H)
        as (w' & E & _ & Hq & _). rewrite E. exact Hq.
    + unfold addDefectComment, tryCatch, bind, addComment. rewrite H.
      reflexivity.
  - intros d H. unfold addDefectComment, tryCatch.
    unfold bind at 1. unfold addComment. rewrite H.
    unfold bind at 1. unfold randomUUID.
    unfold bind at 1. rewrite loadDefect_run, loadDefects_run.
    eexists _, _, _. split; [reflexivity|]. cbn.
    split; [apply lookup_insert_eq|]. split; [reflexivity|].
    split; [reflexivity|]. split; [|reflexivity].
    unfold resolveDefect. rewrite lookup_insert_eq. reflexivity.
  - intros H. unfold addDefectComment, tryCatch, bind, addComment.
    rewrite H. reflexivity.
Qed.

(** ** The detail page *)

Module DetailPageFacts.
Import DetailPage.

(** The reducer state [closeDefect] leaves behind: it has seen the merged
    record, not the history entries that follow the merge. *)
Lemma closeDefect_found_state env id data userId userName w d :
  w_db w !! id = Some d ->
  let upd := applyPatch d (closePatch data userId userName
                             (env_clock env (w_time w))
                             (env_uuid env (w_uuids w)) d) in
  exists w',
    closeDefect env id data userId userName w = (Ok tt, w')
    /\ defects (w_state w')
       = map (fun x => if bool_decide (d_id x = d_id d) then upd else x)
             (defects (w_state w))
    /\ currentDefect (w_state w')
       = (if currentHasId (currentDefect (w_state w)) (d_id d)
          then Some upd else currentDefect (w_state w))
    /\ syncQueueCount (w_state w') = length (w_queue w) + 2
    /\ error (w_state w') = error (w_state w).
Proof.
  intros H upd. unfold closeDefect, tryCatch at 1.
  unfold bind at 1. unfold getDefectById at 1. rewrite H.
  unfold bind at 1. unfold nowISO at 1.
  unfold bind at 1. unfold randomUUID at 1.
  unfold bind at 1.
  erewrite updateDefectData_found by exact H.
  unfold bind at 1.
  erewrite addHistoryEntry_found by (cbn; apply lookup_insert_eq).
  destruct (default false (returnToService data) && d_unsafeDoNotUse d).
  - unfold bind at 1.
    erewrite addHistoryEntry_found by (cbn; apply lookup_insert_eq).
    unfold bind at 1. unfold addToSyncQueue at 1.
    rewrite refreshSyncQueue_run.
    eexists. split; [reflexivity|]. cbn.
    rewrite !length_app. cbn. repeat split; lia.
  - unfold bind at 1. unfold ret at 1.
    unfold bind at 1. unfold addToSyncQueue at 1.
    rewrite refreshSyncQueue_run.
    eexists. split; [reflexivity|]. cbn.
    rewrite !length_app. cbn. repeat split; lia.
Qed.


(** X12. Right after [closeDefect] the provider's current defect is the
    merged record: it is Closed but its history is still the old one, while
    the stored record already carries the close entry.  The page's
    [handleCloseDefect] reloads: afterwards the current defect is the stored
    record and the list of defects is the whole table. *)
Theorem handleCloseDefect_reloads_the_record env data user w current d :
  currentDefect (w_state w) = Some current ->
  w_db w !! d_id current = Some d ->
  d_id d = d_id current ->
  let id := d_id current in
  let stored := closedRecord data (userId user) (fullName user)
                  (env_clock env (w_time w)) (env_uuid env (w_uuids w)) d in
  (exists w1 stale h extra,
      closeDefect env id data (userId user) (fullName user) w = (Ok tt, w1)
      /\ currentDefect (w_state w1) = Some stale
      /\ d_status stale = Closed
      /\ d_history stale = d_history d
      /\ w_db w1 !! id = Some stored
      /\ d_history stored = d_history stale ++ h :: extra
      /\ h_type h = "close")
  /\ exists w2,
       handleCloseDefect env (Some current) data user w = (Ok tt, w2)
       /\ w_db w2 !! id = Some stored
       /\ currentDefect (w_state w2) = Some stored
       /\ defects (w_state w2) = snd <$> map_to_list (w_db w2).
Proof.
  intros Hcur H Hid id stored.
  destruct (closeDefect_found env id data (userId user) (fullName user) w d H)
    as (w1 & E1 & Hdb1 & _).
  destruct (closeDefect_found_state env id data (userId user) (fullName user)
              w d H) as (w1' & E1' & _ & Hc & _).
  rewrite E1 in E1'. injection E1' as <-.
  assert (Hstored : w_db w1 !! id = Some stored)
    by (rewrite Hdb1; apply lookup_insert_eq).
  split.
  - eexists w1, _, _, _. split; [exact E1|]. split.
    { rewrite Hc, Hcur. cbn. rewrite Hid.
      rewrite bool_decide_eq_true_2 by reflexivity. reflexivity. }
    split; [reflexivity|]. split; [reflexivity|]. 
    split; [exact Hstored|].
    split; reflexivity.
  - unfold handleCloseDefect. fold id.
    unfold bind at 1. rewrite E1.
    unfold bind at 1. rewrite loadDefect_run.
    rewrite loadDefects_run.
    eexists. split; [reflexivity|]. cbn.
    split; [exact Hstored|]. split; [|reflexivity].
    unfold resolveDefect. rewrite Hstored. reflexivity.
Qed.

Lemma handleCloseDefect_reloads_the_record_witness :
  currentDefect (w_state (Scenario.viewing Sample.d1)) = Some Sample.d1
  /\ w_db (Scenario.viewing Sample.d1) !! "d1" = Some Sample.d1
  /\ exists w2 stored,
       handleCloseDefect Sample.env (Some Sample.d1) Sample.plainClose
         Scenario.user (Scenario.viewing Sample.d1)
       = (Ok tt, w2)
       /\ currentDefect (w_state w2) = Some stored
       /\ w_db w2 !! "d1" = Some stored.
Proof.
  split; [reflexivity|]. split; [reflexivity|].
  destruct (handleCloseDefect_reloads_the_record Sample.env Sample.plainClose
              Scenario.user (Scenario.viewing Sample.d1) Sample.d1 Sample.d1)
    as (_ & w2 & E & Hd & Hc & _); [reflexivity|reflexivity|reflexivity|].
  eexists w2, _. split; [exact E|]. split; [exact Hc | exact Hd].
Defined.

Lemma loadRelatedDefects_run current pg w :
  loadRelatedDefects (Some current) pg w
  = (Ok (mkView (List.filter (isRelated current) (snd <$> map_to_list (w_db w)))
                (location pg) (showAddUpdateModal pg)), w).
Proof. reflexivity. Qed.

(** X13. In the update dialog, an update with attachments on a Closed defect
    stores the attachments twice: once by the dialog's own update and once
    more by the reopening that follows, which appends them again to the
    record it has just read back.  On a defect that is not Closed they are
    stored once.  Either way the record gets the comment "Update: {reason}",
    followed on a Closed defect by "Reopened: {reason}", and the dialog
    closes. *)
Theorem update_dialog_stores_attachments_twice_when_closed
    env defect why a atts user pg w :
  w_db w !! d_id defect = Some defect ->
  let data := mkReopenData false why (Some (a :: atts)) in
  exists w' pg' d',
    updateModalOnReopen env defect data user pg w = (Ok pg', w')
    /\ showAddUpdateModal pg' = false
    /\ w_db w' !! d_id defect = Some d'
    /\ d_attachments d'
       = d_attachments defect ++ (a :: atts)
         ++ (if bool_decide (d_status defect = Closed) then a :: atts else [])
    /\ d_status d'
       = (if bool_decide (d_status defect = Closed)
          then Open else d_status defect)
    /\ (exists c1 rest,
           d_comments d' = d_comments defect ++ c1 :: rest
           /\ c_text c1 = "Update: " +:+ why
           /\ map c_text rest
              = (if bool_decide (d_status defect = Closed)
                 then ["Reopened: " +:+ why] else [])).
Proof.
  intros H data. subst data. unfold updateModalOnReopen.
  cbn [isNewOccurrence reason reopenAttachments].
  unfold bind at 1.
  unfold bind at 1. unfold nowISO at 1.
  unfold bind at 1.
  unfold bind at 1.
  erewrite updateDefectData_found by exact H.
  unfold ret at 1.
  unfold bind at 1.
  edestruct (addDefectComment_found env (d_id defect))
    as (w1 & E1 & Hdb1 & Hq1 & Ht1 & Hu1 & Hc1); [ | rewrite E1 ].
  { cbn. apply lookup_insert_eq. }
  cbn in Hdb1. rewrite insert_insert_eq in Hdb1.
  destruct (bool_decide (d_status defect = Closed)) eqn:Hclosed.
  - unfold handleReopenDefect. unfold bind at 1.
    edestruct (reopenDefect_same_found env (d_id defect)
                 (mkReopenData false why (Some (a :: atts)))
                 (userId user) (fullName user) w1)
      as (w2 & E2 & Hdb2 & _); [ | reflexivity | rewrite E2 ].
    { rewrite Hdb1. apply lookup_insert_eq. }
    cbn [isNewOccurrence].
    unfold bind at 1. rewrite loadDefect_run.
    unfold bind at 1. rewrite loadRelatedDefects_run.
    unfold bind at 1. rewrite loadDefects_run.
    unfold ret.
    eexists _, _, _. split; [reflexivity|]. cbn.
    split; [reflexivity|].
    split; [rewrite Hdb2; apply lookup_insert_eq|].
    cbn. split; [rewrite <- app_assoc; reflexivity|].
    split; [reflexivity|].
    eexists _, _. split; [rewrite <- app_assoc; reflexivity|].
    split; reflexivity.
  - unfold bind at 1. rewrite loadDefect_run. unfold ret.
    eexists _, _, _. split; [reflexivity|]. cbn.
    split; [reflexivity|].
    split; [rewrite Hdb1; apply lookup_insert_eq|].
    cbn. split; [rewrite app_nil_r; reflexivity|].
    split; [reflexivity|].
    eexists _, _. split; [reflexivity|].
    split; reflexivity.
Qed.

Lemma update_dialog_stores_attachments_twice_when_closed_witness :
  w_db (Sample.world Sample.d1closed) !! "d1" = Some Sample.d1closed
  /\ exists w' pg' d',
       updateModalOnReopen Sample.env Sample.d1closed
         (mkReopenData false "Leak came back" (Some ["leak.jpg"]))
         Scenario.user Scenario.page (Sample.world Sample.d1closed)
       = (Ok pg', w')
       /\ w_db w' !! "d1" = Some d'
       /\ d_attachments d' = ["leak.jpg"; "leak.jpg"]
       /\ d_status d' = Open.
Proof.
  split; [reflexivity|].
  destruct (update_dialog_stores_attachments_twice_when_closed Sample.env
              Sample.d1closed "Leak came back" "leak.jpg" [] Scenario.user
              Scenario.page (Sample.world Sample.d1closed))
    as (w' & pg' & d' & E & _ & Hd & Ha & Hs & _); [reflexivity|].
  exists w', pg', d'. split; [exact E|]. split; [exact Hd|].
  split; [exact Ha|exact Hs].
Defined.

Lemma isRelated_sym a b : isRelated a b = isRelated b a.
Proof.
  unfold isRelated. repeat case_bool_decide; try reflexivity; congruence.
Qed.

(** X14. Being related is symmetric and irreflexive: a defect is listed on
    another's page exactly when that other is listed on its own, and never
    on its own page. *)
Theorem isRelated_symmetric_irreflexive a b :
  isRelated a b = isRelated b a /\ isRelated a a = false.
Proof.
  split; [apply isRelated_sym|].
  unfold isRelated.
  rewrite (bool_decide_eq_false_2 (d_id a ≠ d_id a)) by tauto.
  apply andb_false_r.
Qed.

Lemma In_length_pos {A} (x : A) l : In x l -> 0 < length l.
Proof. destruct l; [intros []|cbn; lia]. Qed.

Lemma stored_elem_of_table (db : gmap string Defect) k d :
  db !! k = Some d -> In d (snd <$> map_to_list db).
Proof.
  intros H. apply list_elem_of_In, list_elem_of_fmap.
  exists (k, d). split; [reflexivity|]. apply elem_of_map_to_list. exact H.
Qed.

(** X15. After a reopening as a new occurrence the two records show each
    other: the new record is among the related defects of the source and
    the source is among those of the new record, so both pages report
    recurrences; [handleReopenDefect] leaves the page on the route of the
    new record, and loading that id makes the new record the current
    defect. *)
Theorem new_occurrence_links_both_pages
    env why atts user pg w current :
  w_db w !! d_id current = Some current ->
  (forall n, w_db w !! a_id (env_assign env (w_created w) n) = None) ->
  let data := mkReopenData true why atts in
  exists w' pg' newId source' new pgS pgN w'',
    handleReopenDefect env (Some current) data user pg w = (Ok pg', w')
    /\ location pg' = Some ("/defects/" +:+ newId)
    /\ w_db w' !! d_id current = Some source'
    /\ w_db w' !! newId = Some new
    /\ d_parentDefectId new = Some (d_id current)
    /\ loadRelatedDefects (Some source') pg' w' = (Ok pgS, w')
    /\ In new (relatedDefects pgS)
    /\ hasRecurrences source' pgS = true
    /\ loadRelatedDefects (Some new) pg' w' = (Ok pgN, w')
    /\ In source' (relatedDefects pgN)
    /\ hasRecurrences new pgN = true
    /\ loadDefect newId w' = (Ok tt, w'')
    /\ currentDefect (w_state w'') = Some new.
Proof.
  intros H Hfresh data.
  pose proof (Hfresh (recurrenceInput data (userId user) (fullName user)
                        (env_clock env (w_time w))
                        (env_clock env (S (w_time w))) current)) as Hnew.
  destruct (reopenDefect_new_found env (d_id current) data (userId user)
              (fullName user) w current H eq_refl eq_refl Hnew)
    as (w' & E & Hdb & _).
  assert (Hne : d_id (recurrenceRecord env data (userId user) (fullName user)
                        w current) ≠ d_id current)
    by (intros Eq; cbn in Eq; rewrite Eq in Hnew; congruence).
  set (new := recurrenceRecord env data (userId user) (fullName user) w current)
    in *.
  assert (Hs : w_db w' !! d_id current
               = Some (applyPatch current (countPatch current)))
    by (rewrite Hdb; apply lookup_insert_eq).
  assert (Hn : w_db w' !! d_id new = Some new).
  { rewrite Hdb, lookup_insert_ne by congruence. apply lookup_insert_eq. }
  assert (Hrel : isRelated (applyPatch current (countPatch current)) new = true).
  { unfold isRelated. cbn [d_id applyPatch].
    rewrite (bool_decide_eq_true_2 (d_parentDefectId new = Some (d_id current)))
      by reflexivity.
    rewrite (bool_decide_eq_true_2 (d_id new ≠ d_id current)) by exact Hne.
    reflexivity. }
  unfold handleReopenDefect. unfold bind at 1. rewrite E.
  cbn [isNewOccurrence data]. unfold ret.
  eexists w', _, (d_id new), _, new, _, _, _.
  split; [reflexivity|]. split; [reflexivity|].
  split; [exact Hs|]. split; [exact Hn|]. split; [reflexivity|].
  split; [apply loadRelatedDefects_run|].
  assert (In1 : In new
                  (List.filter (isRelated (applyPatch current (countPatch current)))
                     (snd <$> map_to_list (w_db w')))).
  { apply filter_In. split; [eapply stored_elem_of_table; exact Hn|exact Hrel]. }
  split; [exact In1|].
  split.
  { unfold hasRecurrences. cbn [relatedDefects].
    rewrite bool_decide_eq_true_2 by (eapply In_length_pos; exact In1).
    reflexivity. }
  split; [apply loadRelatedDefects_run|].
  assert (In2 : In (applyPatch current (countPatch current))
                  (List.filter (isRelated new)
                     (snd <$> map_to_list (w_db w')))).
  { apply filter_In. split; [eapply stored_elem_of_table; exact Hs|].
    rewrite isRelated_sym. exact Hrel. }
  split; [exact In2|].
  split.
  { unfold hasRecurrences. cbn [relatedDefects].
    rewrite bool_decide_eq_true_2 by (eapply In_length_pos; exact In2).
    reflexivity. }
  split; [apply loadDefect_run|].
  unfold set_state, resolveDefect. cbn [w_state w_db]. rewrite Hn.
  reflexivity.
Qed.

Lemma new_occurrence_links_both_pages_witness :
  w_db (Sample.world Sample.d1closed) !! "d1" = Some Sample.d1closed
  /\ exists w' pg' newId new pgS,
       handleReopenDefect Sample.env (Some Sample.d1closed)
         (mkReopenData true "Leak came back" None)
         Scenario.user Scenario.page (Sample.world Sample.d1closed)
       = (Ok pg', w')
       /\ location pg' = Some ("/defects/" +:+ newId)
       /\ w_db w' !! newId = Some new
       /\ d_parentDefectId new = Some "d1"
       /\ In new (relatedDefects pgS).
Proof.
  split; [reflexivity|].
  destruct (new_occurrence_links_both_pages Sample.env "Leak came back" None
              Scenario.user Scenario.page (Sample.world Sample.d1closed)
              Sample.d1closed)
    as (w' & pg' & newId & source' & new & pgS & pgN & w'' & E & Hl & _ & Hn
        & Hp & _ & Hin & _);
    [reflexivity|intros n; reflexivity|].
  exists w', pg', newId, new, pgS.
  split; [exact E|]. split; [exact Hl|]. split; [exact Hn|].
  split; [exact Hp|exact Hin].
Defined.

End DetailPageFacts.

(** ** Filters of the list pages *)

Module ListFiltersFacts.
Import ListFilters.

Lemma selectOf_insert (filters : gmap string FilterValue) key v :
  selectOf (<[key := Select v]> filters) key = Some v.
Proof. unfold selectOf. rewrite lookup_insert_eq. reflexivity. Qed.

Lemma selectOf_delete (filters : gmap string FilterValue) key :
  selectOf (delete key filters) key = None.
Proof. unfold selectOf. rewrite lookup_delete_eq. reflexivity. Qed.

Lemma handleFilterChange_other groupId value
    (prev : gmap string FilterValue) key :
  key ≠ groupId -> handleFilterChange groupId value prev !! key = prev !! key.
Proof.
  intros Hne. unfold handleFilterChange.
  destruct value as [v|]; [destruct (isBlank (Some v))|];
    rewrite ?lookup_delete_ne, ?lookup_insert_ne by congruence; reflexivity.
Qed.

Lemma handleMultiSelectChange_nil groupId (prev : gmap string FilterValue) :
  handleMultiSelectChange groupId [] prev = delete groupId prev.
Proof. reflexivity. Qed.

Lemma handleMultiSelectChange_cons groupId x l
    (prev : gmap string FilterValue) :
  handleMultiSelectChange groupId (x :: l) prev
  = <[groupId := Select (Many (x :: l))]> prev.
Proof.
  unfold handleMultiSelectChange, handleFilterChange, isBlank.
  rewrite bool_decide_eq_true_2 by (cbn; lia).
  rewrite bool_decide_eq_false_2 by discriminate. reflexivity.
Qed.

Lemma handleFilterChange_many groupId x l (prev : gmap string FilterValue) :
  handleFilterChange groupId (Some (Many (x :: l))) prev
  = <[groupId := Select (Many (x :: l))]> prev.
Proof.
  unfold handleFilterChange, isBlank.
  rewrite bool_decide_eq_false_2 by discriminate. reflexivity.
Qed.

(** X16. What a multi-select stores is what the page reads back: after
    [handleMultiSelectChange] for a group, [getSelectedArray] of that group
    is the selection given, the empty selection included (its key is
    removed), and the other keys of the filter are untouched. *)
Theorem multi_select_round_trip groupId selected
    (prev : gmap string FilterValue) :
  getSelectedArray (selectOf (handleMultiSelectChange groupId selected prev)
                             groupId) = selected
  /\ (selected = [] ->
      handleMultiSelectChange groupId selected prev !! groupId = None)
  /\ (forall key, key ≠ groupId ->
        handleMultiSelectChange groupId selected prev !! key = prev !! key).
Proof.
  split; [|split].
  - destruct selected as [|x l].
    + rewrite handleMultiSelectChange_nil, selectOf_delete. reflexivity.
    + rewrite handleMultiSelectChange_cons, selectOf_insert. reflexivity.
  - intros ->. rewrite handleMultiSelectChange_nil. apply lookup_delete_eq.
  - intros key Hne. apply handleFilterChange_other. exact Hne.
Qed.

(** X17. [handleFilterChange] never stores a blank value: if no select key
    of the filter holds an empty string or an empty array before, none does
    after, whatever value is given; a blank value removes the key. *)
Theorem handleFilterChange_stores_no_blank groupId value
    (prev : gmap string FilterValue) :
  (forall key v, prev !! key = Some (Select v) -> isBlank (Some v) = false) ->
  (forall key v,
      handleFilterChange groupId value prev !! key = Some (Select v) ->
      isBlank (Some v) = false)
  /\ (isBlank value = true ->
      handleFilterChange groupId value prev !! groupId = None).
Proof.
  intros Hinv. split.
  - intros key v. destruct (decide (key = groupId)) as [->|Hne].
    + unfold handleFilterChange. destruct value as [v0|].
      * destruct (isBlank (Some v0)) eqn:Hb.
        -- rewrite lookup_delete_eq. discriminate.
        -- rewrite lookup_insert_eq. intros [= <-]. exact Hb.
      * rewrite lookup_delete_eq. discriminate.
    + rewrite handleFilterChange_other by exact Hne. apply Hinv.
  - intros Hb. unfold handleFilterChange. destruct value as [v0|].
    + rewrite Hb. apply lookup_delete_eq.
    + apply lookup_delete_eq.
Qed.

Lemma handleFilterChange_stores_no_blank_witness :
  (forall key v, AssetsPage.emptyFilters !! key = Some (Select v) ->
                 isBlank (Some v) = false)
  /\ handleFilterChange "siteId" (Some (Many [])) AssetsPage.emptyFilters
       !! "siteId" = None
  /\ handleFilterChange "siteId" (Some (One "")) AssetsPage.emptyFilters
       !! "siteId" = None.
Proof.
  assert (H0 : forall key v,
             AssetsPage.emptyFilters !! key = Some (Select v) ->
             isBlank (Some v) = false).
  { intros key v. unfold AssetsPage.emptyFilters.
    destruct (decide (key = "includeArchived")) as [->|Hne].
    - rewrite lookup_singleton_eq. discriminate.
    - rewrite lookup_singleton_ne by congruence. discriminate. }
  split; [exact H0|]. split.
  - apply (handleFilterChange_stores_no_blank "siteId" (Some (Many []))
             AssetsPage.emptyFilters H0). reflexivity.
  - apply (handleFilterChange_stores_no_blank "siteId" (Some (One ""))
             AssetsPage.emptyFilters H0). reflexivity.
Defined.

End ListFiltersFacts.

Module AssetsPageFacts.
Import ListFilters AssetsPage.

Lemma count_fold (f : string -> bool) keys : forall n,
  fold_left (fun count key => if f key then S count else count) keys n
  = n + length (List.filter f keys).
Proof.
  induction keys as [|k l IH]; intros n; cbn; [lia|].
  rewrite IH. destruct (f k); cbn; lia.
Qed.

(** X18. The filter badge counts the groups that show a selection:
    [activeFilterCount] is the number of the eight select groups whose
    [getSelectedArray] is not empty (no group key holding a flag); it is at
    most 8, and 0 for the cleared filters. *)
Theorem activeFilterCount_counts_selected_groups
    (filters : gmap string FilterValue) :
  (forall key b, In key filterGroups -> filters !! key ≠ Some (Flag b)) ->
  activeFilterCount filters
  = length (List.filter
              (fun key => bool_decide
                            (getSelectedArray (selectOf filters key) ≠ []))
              filterGroups)
  /\ activeFilterCount filters <= 8
  /\ activeFilterCount emptyFilters = 0.
Proof.
  intros Hflags. unfold activeFilterCount. rewrite count_fold.
  split; [|split].
  - cbn [Nat.add]. f_equal. apply filter_ext_in. intros key Hin.
    unfold isActive, selectOf.
    destruct (filters !! key) as [[[s|l]|b]|] eqn:E; cbn.
    + destruct (bool_decide (s = "")); reflexivity.
    + destruct l; reflexivity.
    + exfalso. exact (Hflags key b Hin E).
    + reflexivity.
  - cbn [Nat.add]. etransitivity; [apply filter_length_le|]. reflexivity.
  - reflexivity.
Qed.

Lemma activeFilterCount_counts_selected_groups_witness :
  (forall key b, In key filterGroups ->
                 Scenario.filters !! key ≠ Some (Flag b))
  /\ activeFilterCount Scenario.filters = 2.
Proof.
  assert (H : forall key b, In key filterGroups ->
                            Scenario.filters !! key ≠ Some (Flag b)).
  { intros key b Hin. cbn in Hin.
    repeat (destruct Hin as [<-|Hin]; [vm_compute; discriminate|]).
    destruct Hin. }
  split; [exact H|].
  rewrite (proj1 (activeFilterCount_counts_selected_groups Scenario.filters H)).
  reflexivity.
Defined.

(** X19. The KPI cards add up: the non-compliant count is the red count
    plus the amber count, and no card exceeds the total. *)
Theorem kpiStats_add_up baseAssets :
  let k := kpiStats baseAssets in
  nonCompliantAssets k = redAssets k + amberAssets k
  /\ nonCompliantAssets k <= totalAssets k
  /\ assetsWithOpenIssues k <= totalAssets k
  /\ outOfServiceQuarantined k <= totalAssets k
  /\ (totalAssets k = 0 -> baseAssets = []).
Proof.
  cbn. split; [|split; [|split; [|split]]]; try apply filter_length_le.
  - induction baseAssets as [|a l IH]; cbn; [reflexivity|].
    destruct (Assets.complianceRAG a); cbn; lia.
  - destruct baseAssets; [reflexivity|discriminate].
Qed.

End AssetsPageFacts.

Module PMSchedulesFacts.
Import ListFilters PMSchedules.

(** X20. The two quick-filter boxes of the PM list show what their handlers
    did: after [handleHideWeekly] the hide-weekly box is checked exactly
    when it was ticked, after [handleShowSafetyStatutoryOnly] likewise, and
    each handler leaves every other filter key as it was. *)
Theorem quick_filters_round_trip checked (filters : gmap string FilterValue) :
  isHidingWeekly (handleHideWeekly checked filters) = checked
  /\ isSafetyStatutoryOnly (handleShowSafetyStatutoryOnly checked filters)
     = checked
  /\ (forall key, key ≠ "frequencyCategory" ->
        handleHideWeekly checked filters !! key = filters !! key)
  /\ (forall key, key ≠ "importanceLevel" ->
        handleShowSafetyStatutoryOnly checked filters !! key = filters !! key).
Proof.
  split; [|split; [|split]].
  - destruct checked; unfold isHidingWeekly, handleHideWeekly.
    + change (List.filter _ allFrequencies)
        with ["Daily"; "Monthly"; "Quarterly"; "6-Monthly"; "Annual"].
      rewrite ListFiltersFacts.handleFilterChange_many,
        ListFiltersFacts.selectOf_insert. reflexivity.
    + unfold handleFilterChange.
      rewrite ListFiltersFacts.selectOf_delete. reflexivity.
  - destruct checked;
      unfold isSafetyStatutoryOnly, handleShowSafetyStatutoryOnly.
    + rewrite ListFiltersFacts.handleFilterChange_many,
        ListFiltersFacts.selectOf_insert. reflexivity.
    + unfold handleFilterChange.
      rewrite ListFiltersFacts.selectOf_delete. reflexivity.
  - intros key Hne. destruct checked; unfold handleHideWeekly;
      apply ListFiltersFacts.handleFilterChange_other; exact Hne.
  - intros key Hne. destruct checked; unfold handleShowSafetyStatutoryOnly;
      apply ListFiltersFacts.handleFilterChange_other; exact Hne.
Qed.

End PMSchedulesFacts.

Module BulkHandlerFacts.
Import Assets.

Lemma applyAssetPatch_twice a u :
  applyAssetPatch (applyAssetPatch a u) u = applyAssetPatch a u.
Proof.
  destruct a, u as [[o|] [l|]]; reflexivity.
Qed.

(** What the loop leaves under an id: the asset it found there, updated if
    the id is among those processed and the update was accepted. *)
Lemma bulkLoop_store validate ids updates :
  forall (store : gmap string Asset) acc i,
    snd (bulkLoop validate ids updates store acc) !! i
    = match store !! i, resolveUpdates validate updates with
      | Some a, inr u =>
          Some (if bool_decide (i ∈ ids) then applyAssetPatch a u else a)
      | o, _ => o
      end.
Proof.
  induction ids as [|j rest IH]; intros store acc i.
  - cbn. rewrite bool_decide_eq_false_2 by apply not_elem_of_nil.
    destruct (store !! i), (resolveUpdates validate updates); reflexivity.
  - cbn [bulkLoop]. destruct (store !! j) as [b|] eqn:Ej.
    + destruct (resolveUpdates validate updates) as [why|u] eqn:Er.
      * rewrite IH. destruct (store !! i); reflexivity.
      * rewrite IH. destruct (decide (j = i)) as [->|Hne].
        -- rewrite lookup_insert_eq, Ej.
           rewrite (bool_decide_eq_true_2 (i ∈ i :: rest))
             by (left; reflexivity).
           destruct (bool_decide (i ∈ rest));
             rewrite ?applyAssetPatch_twice; reflexivity.
        -- rewrite lookup_insert_ne by exact Hne.
           destruct (store !! i) as [a|]; [|reflexivity].
           f_equal. rewrite (bool_decide_ext (i ∈ j :: rest) (i ∈ rest));
             [reflexivity|]. rewrite elem_of_cons. intuition congruence.
    + rewrite IH. destruct (decide (j = i)) as [->|Hne].
      * rewrite Ej. reflexivity.
      * destruct (store !! i) as [a|]; [|reflexivity].
        destruct (resolveUpdates validate updates); [reflexivity|].
        f_equal. rewrite (bool_decide_ext (i ∈ j :: rest) (i ∈ rest));
             [reflexivity|]. rewrite elem_of_cons. intuition congruence.
Qed.



(** X22. A bulk change of one status alone is applied without any check of
    the combination it produces: every selected asset that resolves gets
    the chosen operational status and keeps its lifecycle status, whatever
    that is (and likewise a chosen lifecycle status is set beside whatever
    operational status the asset has). *)
Theorem single_status_bulk_update_is_unchecked pg :
  selectedIds pg ≠ [] ->
  (forall op,
      bulkOperationalStatus pg = Some op ->
      bulkLifecycleStatus pg = None ->
      forall i a,
        i ∈ selectedIds pg -> assets pg !! i = Some a ->
        assets (handleBulkUpdate pg) !! i
        = Some (mkAsset (id a) op (lifecycleStatus a) (complianceRAG a)
                        (openIssuesCount a)))
  /\ (forall lc,
         bulkOperationalStatus pg = None ->
         bulkLifecycleStatus pg = Some lc ->
         forall i a,
           i ∈ selectedIds pg -> assets pg !! i = Some a ->
           assets (handleBulkUpdate pg) !! i
           = Some (mkAsset (id a) (operationalStatus a) lc (complianceRAG a)
                           (openIssuesCount a))).
Proof.
  intros Hsel. split.
  - intros op Ho Hl i a Hi Ha. unfold handleBulkUpdate.
    rewrite bool_decide_eq_false_2
      by (destruct (selectedIds pg); [contradiction|discriminate]).
    rewrite Ho, Hl. cbn [buildUpdates negb].
    pose proof (bulkLoop_store validateStatusCombination (selectedIds pg)
                  (mkAssetPatch (Some op) None) (assets pg)
                  (mkBulkResult 0 []) i) as Hstore.
    fold (bulkUpdateAssets validateStatusCombination (selectedIds pg)
            (mkAssetPatch (Some op) None) (assets pg)) in Hstore.
    destruct (bulkUpdateAssets validateStatusCombination (selectedIds pg)
                (mkAssetPatch (Some op) None) (assets pg)) as [result store'].
    cbn [snd assets] in *. rewrite Hstore, Ha. cbn.
    rewrite bool_decide_eq_true_2 by exact Hi. reflexivity.
  - intros lc Ho Hl i a Hi Ha. unfold handleBulkUpdate.
    rewrite bool_decide_eq_false_2
      by (destruct (selectedIds pg); [contradiction|discriminate]).
    rewrite Ho, Hl. cbn [buildUpdates negb].
    pose proof (bulkLoop_store validateStatusCombination (selectedIds pg)
                  (mkAssetPatch None (Some lc)) (assets pg)
                  (mkBulkResult 0 []) i) as Hstore.
    fold (bulkUpdateAssets validateStatusCombination (selectedIds pg)
            (mkAssetPatch None (Some lc)) (assets pg)) in Hstore.
    destruct (bulkUpdateAssets validateStatusCombination (selectedIds pg)
                (mkAssetPatch None (Some lc)) (assets pg)) as [result store'].
    cbn [snd assets] in *. rewrite Hstore, Ha. cbn.
    rewrite bool_decide_eq_true_2 by exact Hi. reflexivity.
Qed.

(** A Disposed lifecycle set alone on an asset in use gives a pair that the
    validator itself rejects. *)
Example single_status_update_can_store_invalid_pair :
  let pg := mkPage ["a1"] None (Some Disposed) Sample.sampleStore [] in
  exists a,
    assets (handleBulkUpdate pg) !! "a1" = Some a
    /\ isValid (validateStatusCombination (Some (operationalStatus a))
                                          (Some (lifecycleStatus a)))
       = false.
Proof. eexists. split; reflexivity. Qed.

Lemma single_status_bulk_update_is_unchecked_witness :
  selectedIds (mkPage ["a1"] None (Some Disposed) Sample.sampleStore [])
  ≠ []
  /\ assets (handleBulkUpdate
               (mkPage ["a1"] None (Some Disposed) Sample.sampleStore []))
       !! "a1"
     = Some (mkAsset "a1" InUse Disposed Green None).
Proof.
  split; [discriminate|].
  destruct (single_status_bulk_update_is_unchecked
              (mkPage ["a1"] None (Some Disposed) Sample.sampleStore []))
    as (_ & Hlc); [discriminate|].
  apply (Hlc Disposed eq_refl eq_refl "a1"
             (mkAsset "a1" InUse Active Green None)).
  - apply list_elem_of_singleton. reflexivity.
  - reflexivity.
Defined.
End BulkHandlerFacts.

Module ExportFacts.
Import ExportUtils.

Lemma countChar_app c s t :
  countChar c (s +:+ t) = countChar c s + countChar c t.
Proof. induction s as [|x s IH]; simpl; [reflexivity|]. rewrite IH. lia. Qed.

Lemma includesChar_false_count c s :
  includesChar c s = false -> countChar c s = 0.
Proof.
  induction s as [|x s IH]; cbn; [reflexivity|].
  destruct (bool_decide (x = c)); cbn; [discriminate|]. exact IH.
Qed.

Lemma countChar_doubleQuotes s :
  countChar dquote (doubleQuotes s) = 2 * countChar dquote s.
Proof.
  induction s as [|x s IH]; cbn; [reflexivity|].
  destruct (bool_decide (x = dquote)) eqn:E; cbn.
  - rewrite IH. change (bool_decide (dquote = dquote)) with true. cbn. lia.
  - rewrite E, IH. cbn. lia.
Qed.

Lemma includesChar_doubleQuotes c s :
  c ≠ dquote -> includesChar c (doubleQuotes s) = includesChar c s.
Proof.
  intros Hc. induction s as [|x s IH]; cbn; [reflexivity|].
  destruct (bool_decide (x = dquote)) eqn:E; cbn.
  - apply bool_decide_eq_true_1 in E. subst x.
    rewrite (bool_decide_eq_false_2 (dquote = c)) by congruence.
    cbn. exact IH.
  - rewrite IH. reflexivity.
Qed.

(** The quoted form is injective: the closing quote included. *)
Lemma quoted_inj s1 : forall s2,
  doubleQuotes s1 +:+ String dquote "" = doubleQuotes s2 +:+ String dquote ""
  -> s1 = s2.
Proof.
  induction s1 as [|x s1 IH]; intros [|y s2]; cbn.
  - reflexivity.
  - destruct (bool_decide (y = dquote)) eqn:E; cbn.
    + intros [= H].
    + intros [= H _]. apply bool_decide_eq_false_1 in E. congruence.
  - destruct (bool_decide (x = dquote)) eqn:E; cbn.
    + intros [= H].
    + intros [= H _]. apply bool_decide_eq_false_1 in E. congruence.
  - destruct (bool_decide (x = dquote)) eqn:Ex,
             (bool_decide (y = dquote)) eqn:Ey; cbn.
    + apply bool_decide_eq_true_1 in Ex, Ey. subst.
      intros [= H]. f_equal. apply IH. exact H.
    + apply bool_decide_eq_true_1 in Ex. apply bool_decide_eq_false_1 in Ey.
      intros [= H _]. congruence.
    + apply bool_decide_eq_true_1 in Ey. apply bool_decide_eq_false_1 in Ex.
      intros [= H _]. congruence.
    + intros [= -> H]. f_equal. apply IH. exact H.
Qed.

Lemma csvField_text s :
  csvField (CStr s)
  = if needsQuotes s
    then String dquote (doubleQuotes s +:+ String dquote "") else s.
Proof. reflexivity. Qed.

(** X23. The CSV escape loses nothing: two different texts never give the
    same field. *)
Theorem csvField_injective_on_text s1 s2 :
  csvField (CStr s1) = csvField (CStr s2) -> s1 = s2.
Proof.
  rewrite !csvField_text.
  destruct (needsQuotes s1) eqn:E1, (needsQuotes s2) eqn:E2.
  - intros [= H]. apply quoted_inj. exact H.
  - intros <-. unfold needsQuotes in E2. cbn in E2.
    change (bool_decide (dquote = dquote)) with true in E2.
    rewrite orb_true_r in E2. discriminate.
  - intros ->. unfold needsQuotes in E1. cbn in E1.
    change (bool_decide (dquote = dquote)) with true in E1.
    rewrite orb_true_r in E1. discriminate.
  - auto.
Qed.

Lemma csvField_injective_on_text_witness :
  csvField (CStr "a,b") = csvField (CStr "a,b") /\ "a,b" = "a,b".
Proof.
  split; [reflexivity|].
  apply (csvField_injective_on_text "a,b" "a,b"). reflexivity.
Defined.

Lemma csvField_quotes_even value :
  Nat.even (countChar dquote (csvField value)) = true.
Proof.
  assert (H : forall s,
             Nat.even (countChar dquote
                         (if needsQuotes s
                          then String dquote
                                 (doubleQuotes s +:+ String dquote "")
                          else s)) = true).
  { intros s. destruct (needsQuotes s) eqn:E.
    - apply Nat.even_spec. exists (countChar dquote s + 1).
      cbn [countChar]. change (bool_decide (dquote = dquote)) with true.
      rewrite countChar_app, countChar_doubleQuotes. cbn [countChar].
      change (bool_decide (dquote = dquote)) with true. cbv iota. lia.
    - unfold needsQuotes in E.
      apply orb_false_elim in E as [E _]. apply orb_false_elim in E as [_ E].
      rewrite (includesChar_false_count _ _ E). reflexivity. }
  destruct value as [|s|n|b]; [reflexivity| | |].
  - apply H.
  - apply (H (pretty n)).
  - apply (H (stringOf (CBool b))).
Qed.

Lemma csvField_unquoted_clean value :
  includesChar dquote (csvField value) = false ->
  includesChar comma (csvField value) = false
  /\ includesChar newline (csvField value) = false.
Proof.
  assert (H : forall s,
             includesChar dquote
               (if needsQuotes s
                then String dquote (doubleQuotes s +:+ String dquote "")
                else s) = false ->
             includesChar comma
               (if needsQuotes s
                then String dquote (doubleQuotes s +:+ String dquote "")
                else s) = false
             /\ includesChar newline
                  (if needsQuotes s
                   then String dquote (doubleQuotes s +:+ String dquote "")
                   else s) = false).
  { intros s. destruct (needsQuotes s) eqn:E.
    - cbn. change (bool_decide (dquote = dquote)) with true. discriminate.
    - intros _. unfold needsQuotes in E.
      apply orb_false_elim in E as [E E3]. apply orb_false_elim in E as [E1 _].
      auto. }
  destruct value as [|s|n|b]; [intros _; split; reflexivity| | |].
  - apply H.
  - apply (H (pretty n)).
  - apply (H (stringOf (CBool b))).
Qed.

Lemma countChar_concat c sep l :
  countChar c sep = 0 ->
  countChar c (String.concat sep l) = sumOf (map (countChar c) l).
Proof.
  intros Hsep. induction l as [|x l IH]; [reflexivity|].
  destruct l as [|y l]; [cbn; lia|].
  change (String.concat sep (x :: y :: l))
    with (x +:+ sep +:+ String.concat sep (y :: l)).
  rewrite !countChar_app, Hsep, IH. cbn. lia.
Qed.

Lemma sumOf_even l :
  Forall (fun n => Nat.even n = true) l -> Nat.even (sumOf l) = true.
Proof.
  induction 1 as [|x l Hx _ IH]; [reflexivity|].
  cbn. rewrite Nat.even_add, Hx, IH. reflexivity.
Qed.

(** X24. Every field that [exportToCSV] writes is well formed: it holds an
    even number of double quotes, and a field without any double quote
    holds no comma and no line break.  So does the file as a whole: when
    the headers hold no double quote, the double quotes of the content are
    balanced. *)
Theorem exportToCSV_quotes_balanced data filename headers file content mime :
  exportToCSV data filename headers = Download file content mime ->
  (forall value,
      Nat.even (countChar dquote (csvField value)) = true
      /\ (includesChar dquote (csvField value) = false ->
          includesChar comma (csvField value) = false
          /\ includesChar newline (csvField value) = false))
  /\ file = filename +:+ ".csv"
  /\ ((forall first rest header,
          data = first :: rest ->
          header ∈ default (map fst first) headers ->
          includesChar dquote header = false) ->
      Nat.even (countChar dquote content) = true).
Proof.
  intros H. split; [|split].
  - intros value. split; [apply csvField_quotes_even|].
    apply csvField_unquoted_clean.
  - destruct data; [discriminate|]. injection H as <- _ _. reflexivity.
  - intros Hh. destruct data as [|first rest]; [discriminate|].
    unfold exportToCSV in H. cbv zeta in H.
    match type of H with
    | Download _ ?c _ = _ => assert (Hc : content = c) by congruence
    end.
    rewrite Hc. clear H Hc. specialize (Hh first rest).
    set (csvHeaders := default (map fst first) headers) in *.
    rewrite countChar_concat by reflexivity.
    apply sumOf_even. constructor.
    + rewrite countChar_concat by reflexivity.
      apply sumOf_even, Forall_map, Forall_forall. intros h Hin.
      rewrite includesChar_false_count; [reflexivity|].
      apply (Hh h eq_refl). exact Hin.
    + apply Forall_map, Forall_map, Forall_forall. intros row _.
      rewrite countChar_concat by reflexivity.
      apply sumOf_even, Forall_map, Forall_map, Forall_forall. intros h _.
      apply csvField_quotes_even.
Qed.

Lemma exportToCSV_quotes_balanced_witness :
  exists content,
    exportToCSV Scenario.rows "Assets" None
    = Download "Assets.csv" content "text/csv;charset=utf-8;"
    /\ Nat.even (countChar dquote content) = true
    /\ includesChar dquote content = true.
Proof.
  eexists. split; [reflexivity|]. split; [|reflexivity].
  eapply (exportToCSV_quotes_balanced Scenario.rows "Assets" None);
    [reflexivity|].
  intros first rest header [= <- <-] Hin. cbn in Hin.
  repeat (apply elem_of_cons in Hin; destruct Hin as [->|Hin];
          [reflexivity|]).
  apply not_elem_of_nil in Hin. destruct Hin.
Defined.


Lemma maxOf_ge_first rest : forall first, first <= maxOf first rest.
Proof.
  unfold maxOf. induction rest as [|x l IH]; intros first; cbn; [lia|].
  etransitivity; [|apply IH]. lia.
Qed.

Lemma maxOf_ge_each rest : forall first x, In x rest -> x <= maxOf first rest.
Proof.
  unfold maxOf. induction rest as [|y l IH]; intros first x; cbn; [tauto|].
  intros [->|Hin].
  - etransitivity; [|apply (maxOf_ge_first l)]. lia.
  - apply IH. exact Hin.
Qed.

(** X25. The column widths of the Excel sheet: one per key of the first
    row, each at least 2 and at most 50, and wide enough for the header and
    for every cell of the column plus two characters, unless that exceeds
    50. *)
Theorem excelColumnWidths_bounds first rest :
  let data := first :: rest in
  let widths := excelColumnWidths data in
  length widths = length first
  /\ (forall w, In w widths -> 2 <= w <= 50)
  /\ (forall i header w,
         map fst first !! i = Some header ->
         widths !! i = Some w ->
         Nat.min (String.length header + 2) 50 <= w
         /\ forall row, In row data ->
              Nat.min (String.length (stringOrEmpty (rowGet row header)) + 2)
                      50 <= w).
Proof.
  intros data widths. subst widths. unfold excelColumnWidths. subst data.
  cbv zeta. split; [|split].
  - rewrite !length_map. reflexivity.
  - intros w Hin. apply in_map_iff in Hin as (h & <- & _). cbv beta zeta.
    split; [apply Nat.min_glb; [apply Nat.le_add_l|] | apply Nat.le_min_r].
    repeat constructor.
  - intros i header w Hh Hw. rewrite list_lookup_fmap, Hh in Hw.
    injection Hw as <-. cbv beta zeta. split.
    + pose proof (maxOf_ge_first
                    (map (fun row => String.length
                                       (stringOrEmpty (rowGet row header)))
                         (first :: rest)) (String.length header)) as Hmax.
      apply Nat.min_le_compat_r, Nat.add_le_mono_r. exact Hmax.
    + intros row Hin.
      pose proof (maxOf_ge_each
                    (map (fun row => String.length
                                       (stringOrEmpty (rowGet row header)))
                         (first :: rest)) (String.length header)
                    (String.length (stringOrEmpty (rowGet row header)))
                    (in_map _ _ _ Hin)) as Hmax.
      apply Nat.min_le_compat_r, Nat.add_le_mono_r. exact Hmax.
Qed.

Lemma pretty_N_go_nonempty x : forall s, s ≠ "" -> pretty_N_go x s ≠ "".
Proof.
  induction (N.lt_wf_0 x) as [x _ IH]; intros s Hs.
  destruct (decide (0 < x)%N) as [Hx|Hx].
  - rewrite pretty_N_go_step by exact Hx. apply IH; [|discriminate].
    apply N.div_lt; lia.
  - replace x with 0%N by lia. rewrite pretty_N_go_0. exact Hs.
Qed.

Lemma pretty_N_nonempty (n : N) : pretty n ≠ "".
Proof.
  unfold pretty, pretty_N. case_decide; [discriminate|].
  destruct (decide (0 < n)%N) as [Hx|Hx]; [|lia].
  rewrite pretty_N_go_step by exact Hx. apply pretty_N_go_nonempty.
  discriminate.
Qed.

(** X26. The PDF export prints what a column renders, the Excel export
    does so only for strings and elements: when a column renders a number
    the PDF cell is that number, while the Excel cell is the raw value of
    the row with a falsy one left empty.  For the count columns of the
    assets export (which render [count ?? 0]) the two agree exactly when
    the row holds a count other than 0; a count of 0 or a missing count is
    0 in the PDF and empty in the sheet. *)
Theorem count_columns_differ_between_exports key label row :
  (forall col r s,
      render col = Some r ->
      r (rowGet row (ExportUtils.key col)) row = NStr s ->
      s ≠ "" ->
      excelCell col row = CStr s /\ pdfCell col row = s)
  /\ (forall n,
         rowGet row key = CNum n ->
         pdfCell (countColumn key label) row = pretty n
         /\ excelCell (countColumn key label) row
            = CStr (if bool_decide (n = 0%N) then "" else pretty n))
  /\ (rowGet row key = CNull ->
      pdfCell (countColumn key label) row = "0"
      /\ excelCell (countColumn key label) row = CStr "").
Proof.
  split; [|split].
  - intros col r s Hr Hs Hne. unfold excelCell, pdfCell.
    rewrite Hr, Hs. cbn.
    rewrite bool_decide_eq_false_2 by exact Hne. auto.
  - intros n Hn. unfold excelCell, pdfCell, countColumn. cbn.
    rewrite Hn. cbn.
    rewrite bool_decide_eq_false_2 by apply pretty_N_nonempty. auto.
  - intros Hn. unfold excelCell, pdfCell, countColumn. cbn.
    rewrite Hn. cbn. auto.
Qed.
Lemma count_columns_differ_between_exports_witness :
  pdfCell (countColumn "openIssuesCount" "Open Issues")
          [("id", CStr "AST-000001"); ("openIssuesCount", CNum 0)] = "0"
  /\ excelCell (countColumn "openIssuesCount" "Open Issues")
               [("id", CStr "AST-000001"); ("openIssuesCount", CNum 0)]
     = CStr "".
Proof.
  apply (proj1 (proj2 (count_columns_differ_between_exports
                         "openIssuesCount" "Open Issues"
                         [("id", CStr "AST-000001");
                          ("openIssuesCount", CNum 0)])) 0%N).
  reflexivity.
Defined.

End ExportFacts.


Module SeedFacts.
Import Seed.

Lemma createEach_run env seedData : forall w,
  exists w',
    createEach env seedData w = (Ok tt, w')
    /\ w_queue w' = w_queue w
    /\ w_state w' = w_state w
    /\ w_created w' = w_created w + length seedData
    /\ (seedData ≠ [] \/ w_db w ≠ ∅ -> w_db w' ≠ ∅)
    /\ (forall k d, w_db w' !! k = Some d ->
                    w_db w !! k = Some d \/ d_history d = []).
Proof.
  induction seedData as [|data rest IH]; intros w.
  - exists w. cbn. repeat split; auto; try lia. intros [H|H]; [congruence|exact H].
  - cbn [createEach]. unfold bind, createDefect.
    match goal with |- context [createEach env rest ?w1] =>
      destruct (IH w1) as (w' & E & Hq & Hs & Hc & Hne & Hh) end.
    exists w'. split; [exact E|]. cbn in *.
    split; [exact Hq|]. split; [exact Hs|]. split; [lia|]. split.
    + intros _. apply Hne. right. apply insert_non_empty.
    + intros k d Hk. destruct (Hh k d Hk) as [H1|H1]; [|right; exact H1].
      match type of H1 with <[?i := _]> _ !! _ = _ =>
        destruct (decide (i = k)) as [<-|Hik] end.
      * rewrite lookup_insert_eq in H1. injection H1 as <-. right. reflexivity.
      * rewrite lookup_insert_ne in H1 by exact Hik. left. exact H1.
Qed.

Lemma table_values_length (db : gmap string Defect) :
  0 < length (snd <$> map_to_list db) <-> db ≠ ∅.
Proof.
  rewrite length_fmap. split.
  - intros H ->. rewrite map_to_list_empty in H. cbn in H. lia.
  - intros H. destruct (map_to_list db) eqn:E; [|cbn; lia].
    apply map_to_list_empty_iff in E. contradiction.
Qed.

(** X27. Seeding is safe to repeat.  On a table that holds a record
    [seedDefects] changes nothing at all; on an empty table it calls
    [createDefect] once for each seed record and touches neither
    the sync queue nor the reducer state; either way the table holds a
    record afterwards, so seeding a second time changes nothing. *)
Theorem seedDefects_is_idempotent env seedData w :
  seedData ≠ [] ->
  let w1 := snd (seedDefects env seedData w) in
  fst (seedDefects env seedData w) = Ok tt
  /\ (w_db w ≠ ∅ -> w1 = w)
  /\ w_db w1 ≠ ∅
  /\ w_queue w1 = w_queue w
  /\ w_state w1 = w_state w
  /\ (w_db w = ∅ -> w_created w1 = w_created w + length seedData)
  /\ seedDefects env seedData w1 = (Ok tt, w1).
Proof.
  intros Hne w1.
  assert (Hfull : forall w0, w_db w0 ≠ ∅ ->
                             seedDefects env seedData w0 = (Ok tt, w0)).
  { intros w0 H0. unfold seedDefects, bind, DetailPage.getAllDefects,
      queryDefects.
    rewrite bool_decide_eq_true_2 by (apply table_values_length; exact H0).
    reflexivity. }
  destruct (decide (w_db w = ∅)) as [He|Hn].
  - assert (E : seedDefects env seedData w = createEach env seedData w).
    { unfold seedDefects, bind, DetailPage.getAllDefects, queryDefects.
      rewrite bool_decide_eq_false_2; [reflexivity|].
      rewrite table_values_length. intros H. apply H. exact He. }
    destruct (createEach_run env seedData w)
      as (w' & E' & Hq & Hs & Hc & Hne' & Hh).
    subst w1. rewrite E, E'. cbn [fst snd].
    split; [reflexivity|]. split; [intros H; contradiction|].
    assert (Hdb : w_db w' ≠ ∅) by (apply Hne'; left; exact Hne).
    split; [exact Hdb|]. split; [exact Hq|]. split; [exact Hs|].
    split; [|apply Hfull; exact Hdb].
    intros _. exact Hc.
  - subst w1. rewrite (Hfull w Hn). cbn [fst snd].
    split; [reflexivity|]. split; [reflexivity|]. split; [exact Hn|].
    split; [reflexivity|]. split; [reflexivity|].
    split; [intros H; contradiction|apply Hfull; exact Hn].
Qed.

Lemma seedDefects_is_idempotent_witness :
  Scenario.seedData ≠ []
  /\ fst (seedDefects Sample.env Scenario.seedData Scenario.emptyWorld) = Ok tt
  /\ w_created (snd (seedDefects Sample.env Scenario.seedData
                       Scenario.emptyWorld)) = 1
  /\ seedDefects Sample.env Scenario.seedData
       (snd (seedDefects Sample.env Scenario.seedData Scenario.emptyWorld))
     = (Ok tt, snd (seedDefects Sample.env Scenario.seedData
                      Scenario.emptyWorld)).
Proof.
  assert (Hne : Scenario.seedData ≠ []) by discriminate.
  split; [exact Hne|].
  destruct (seedDefects_is_idempotent Sample.env Scenario.seedData
              Scenario.emptyWorld Hne)
    as (Hok & _ & _ & _ & _ & Hc & Hagain).
  split; [exact Hok|]. split; [|exact Hagain].
  exact (Hc eq_refl).
Defined.

End SeedFacts.
